(** * The Windows cache manager plugins of rekall, embedded in Rocq

    A shallow embedding of [rekall/plugins/windows/cache.py]: the VACB
    enumerator ([EnumerateVacbs]), the file dumper ([DumpFiles]) and the MFT
    tree builder ([MftDump]), followed by the properties proved about them.

    The kernel object system, the address spaces and the renderer are not part
    of that file.  They enter the embedding as records of the values the plugin
    reads from them (what a profile constant resolves to, what a pointer to an
    array dereferences to, what an address translates to), so every function
    below is the plugin's own control flow over those values. *)

From Stdlib Require Import ZArith List String Ascii Lia.
From Stdlib.Strings Require Import Byte.
From stdpp Require Import base decidable option list gmap sets strings sorting.

Set Warnings "-clear-no-such-hyp".

Open Scope string_scope.
Open Scope list_scope.
Open Scope Z_scope.

(** ** Kernel objects read by the plugins *)

(** A [_VACB] as the plugins read it.  Pointers are the addresses they hold. *)
Record VACB := mkVACB {
  vacb_offset : Z;          (* where the _VACB itself lives *)
  BaseAddress : Z;          (* vacb.BaseAddress.v() *)
  SharedCacheMap : Z;       (* vacb.SharedCacheMap.v() *)
  FileOffset : Z;           (* vacb.Overlay.FileOffset.QuadPart.v() *)
  ArrayHead : Z;            (* vacb.ArrayHead, pointer to the owning header *)
  FileName : string         (* vacb.SharedCacheMap.FileObject.FileName *)
}.

(** A pointer to a [_VACB_ARRAY_HEADER] as it is met while iterating
    [CcVacbArrays]: the address it holds and the header's fields. *)
Record VACB_ARRAY_HEADER := mkHeader {
  table_ptr : Z;
  VacbArrayIndex : Z;
  VACBs : list VACB
}.

(** What the profile resolves.  [get_constant] is the address of a named
    global, [0] when the profile does not know it (a false value in the
    source); the other three are [get_constant_object] at the three targets
    the enumerator asks for. *)
Record Profile := mkProfile {
  get_constant : string -> Z;
  constant_uint : string -> Z;
  constant_vacb_array : string -> nat -> list VACB;
  constant_header_array : string -> nat -> list VACB_ARRAY_HEADER
}.

(** ** A log of the profile globals consulted

    Every profile access of the enumerator goes through [consult], which
    appends the global's name to a log threaded through the computation. *)
Module Probe.

Definition t (A : Type) : Type := list string -> A * list string.

Definition ret {A} (a : A) : t A := fun log => (a, log).

Definition bind {A B} (m : t A) (k : A -> t B) : t B :=
  fun log => let '(a, log') := m log in k a log'.

Definition consult {A} (name : string) (value : A) : t A :=
  fun log => (value, log ++ [name]).

Definition run {A} (m : t A) : A * list string := m [].

End Probe.

Notation "'let*' x ':=' m 'in' k" := (Probe.bind m (fun x => k))
  (at level 10, x name, m at level 100, k at level 200).

(** ** EnumerateVacbs *)
Module EnumerateVacbs.

(** The inner loop of [GetVACBs_Win7]: slots whose back-reference is not the
    table being scanned are passed over. *)
Fixpoint scan_table (table : VACB_ARRAY_HEADER) (slots : list VACB) : list VACB :=
  match slots with
  | [] => []
  | vacb :: rest =>
      if decide (ArrayHead vacb ≠ table_ptr table)
      then scan_table table rest                (* continue *)
      else vacb :: scan_table table rest        (* yield vacb *)
  end.

(** The outer loop of [GetVACBs_Win7]. *)
Fixpoint scan_tables (vacb_arrays : list VACB_ARRAY_HEADER) : list VACB :=
  match vacb_arrays with
  | [] => []
  | table :: rest => scan_table table (VACBs table) ++ scan_tables rest
  end.

Definition GetVACBs_Win7 (profile : Profile) : Probe.t (list VACB) :=
  let* total_vacb_arrays := Probe.consult "CcVacbArraysAllocated"
                         (constant_uint profile "CcVacbArraysAllocated") in
  let* vacb_arrays := Probe.consult "CcVacbArrays"
                   (constant_header_array profile "CcVacbArrays"
                      (Z.to_nat total_vacb_arrays)) in
  Probe.ret (scan_tables vacb_arrays).

Definition GetVACBs_WinXP (profile : Profile) : Probe.t (list VACB) :=
  let* total_vacb_arrays := Probe.consult "CcNumberVacbs"
                         (constant_uint profile "CcNumberVacbs") in
  let* vacb_array := Probe.consult "CcVacbs"
                  (constant_vacb_array profile "CcVacbs"
                     (Z.to_nat total_vacb_arrays)) in
  Probe.ret vacb_array.

Definition GetVACBs (profile : Profile) : Probe.t (list VACB) :=
  let* legacy := Probe.consult "CcVacbs" (get_constant profile "CcVacbs") in
  if decide (legacy ≠ 0)
  then GetVACBs_WinXP profile
  else GetVACBs_Win7 profile.

(** The globals of the two layouts. *)
Definition legacy_globals : list string := ["CcVacbs"; "CcNumberVacbs"].
Definition table_globals : list string := ["CcVacbArrays"; "CcVacbArraysAllocated"].

(** The tables [GetVACBs_Win7] iterates. *)
Definition vacb_tables (profile : Profile) : list VACB_ARRAY_HEADER :=
  constant_header_array profile "CcVacbArrays"
    (Z.to_nat (constant_uint profile "CcVacbArraysAllocated")).

End EnumerateVacbs.

(** ** Objects read by DumpFiles *)

(** An [_MMPTE]; [Long] is [pte.u.Long.v()]. *)
Record MMPTE := mkPTE { Long : Z }.

(** Modelled from the spec: the object system's [&] on a PTE object is not
    part of the plugin; the fallback decode "checks only the low valid bit
    directly on the raw PTE value", so [pte & mask] masks [Long]. *)
Definition pte_and (pte : MMPTE) (mask : Z) : Z := Z.land (Long pte) mask.

(** A [_SUBSECTION]; [SubsectionBase] is the PTE array it points to. *)
Record SUBSECTION := mkSubsection {
  StartingSector : Z;
  NumberOfFullSectors : Z;
  SubsectionBase : list MMPTE
}.

(** A [_CONTROL_AREA], as the list [FirstSubsection.walk_list("NextSubsection")]
    yields. *)
Record CONTROL_AREA := mkControlArea { subsections : list SUBSECTION }.

(** A [_FILE_OBJECT].  A null section pointer is [None]. *)
Record FILE_OBJECT := mkFileObject {
  file_object_address : Z;
  file_name_with_device : string;
  ImageSectionObject : option CONTROL_AREA;
  DataSectionObject : option CONTROL_AREA;
  SectionSharedCacheMap : Z   (* SectionObjectPointer.SharedCacheMap.v() *)
}.

(** The kernel address space.  [ResolveProtoPTE] is [None] on an address space
    that lacks the method (the call raises [AttributeError]); where present it
    returns the physical address or [None].  [vtop] likewise. *)
Record KernelAddressSpace := mkKAS {
  ResolveProtoPTE : option (Z -> Z -> option Z);
  vtop : Z -> option Z
}.

(** The physical address space: [phys_end] is its [end()], [read] its
    [read(address, length)]. *)
Record PhysicalAddressSpace := mkPAS {
  phys_end : Z;
  read : Z -> Z -> list byte
}.

(** A row handed to [renderer.table_row] by DumpFiles. *)
Record Row := mkRow {
  row_type : string;
  POffset : Z;
  FOffset : Z;
  Flength : Z;
  row_filename : string
}.

(** One [out_fd.seek(offset); out_fd.write(data)]. *)
Record Write := mkWrite { seek : Z; data : list byte }.

(** A process as CollectFileObject walks it: the file pointers of its VADs
    ([None] for a null pointer) and its handles with their object type. *)
Record Task := mkTask {
  task_name : string;
  vad_file_pointers : list (option FILE_OBJECT);
  handles : list (string * FILE_OBJECT)
}.

(** ** DumpFiles *)
Module DumpFiles.

(** [s.replace("\\", "_")] at the one pattern the plugin uses. *)
Fixpoint replace_backslash (s : string) : string :=
  match s with
  | EmptyString => EmptyString
  | String c rest =>
      String (if Ascii.eqb c "\"%char then "_"%char else c) (replace_backslash rest)
  end.

(** [xrange(0, 0x40000, 0x1000)] *)
Definition vacb_page_offsets : list Z :=
  (fun k => k * 0x1000) <$> seqZ 0 (0x40000 / 0x1000).

Section Plugin.
Variable kernel_address_space : KernelAddressSpace.
Variable physical_address_space : PhysicalAddressSpace.
(** [out_fd.name] of the stream the renderer opens for a filename. *)
Variable out_fd_name : string -> string.

Definition sectors_per_page : Z := 0x1000 / 512.

(** The [try]/[except AttributeError] of [_dump_ca] followed by the
    [phys_address == None] test: [None] is either of the two
    [continue]s. *)
Definition resolve_pte (pte : MMPTE) : option Z :=
  let pte_value := Long pte in
  match ResolveProtoPTE kernel_address_space with
  | Some resolve => resolve pte_value 0
  | None =>
      if decide (pte_and pte 1 ≠ 0)
      then Some (Z.land pte_value 0xffffffffff000)
      else None
  end.

(** The body of the inner loop of [_dump_ca] for page [i]: [None] when the
    page is passed over, otherwise the row rendered and the write made. *)
Definition dump_pte (type filename : string) (subsection : SUBSECTION)
    (i : Z) (pte : MMPTE) : option (Row * Write) :=
  match resolve_pte pte with
  | None => None
  | Some phys_address =>
      let file_sector_offset :=
        StartingSector subsection + i * sectors_per_page in
      let file_sectors_mapped_in_page :=
        Z.min sectors_per_page
              (NumberOfFullSectors subsection - i * sectors_per_page) in
      if decide (file_sectors_mapped_in_page < 0) then None
      else if decide (phys_address > phys_end physical_address_space) then None
      else Some (mkRow type phys_address (file_sector_offset * 512)
                       (file_sectors_mapped_in_page * 512) filename,
                 mkWrite (file_sector_offset * 512)
                         (read physical_address_space phys_address
                               (file_sectors_mapped_in_page * 512)))
  end.

(** [for i, pte in enumerate(subsection.SubsectionBase)], from index [i]. *)
Fixpoint dump_ptes (type filename : string) (subsection : SUBSECTION)
    (i : Z) (ptes : list MMPTE) : list (Row * Write) :=
  match ptes with
  | [] => []
  | pte :: rest =>
      match dump_pte type filename subsection i pte with
      | None => dump_ptes type filename subsection (i + 1) rest
      | Some out => out :: dump_ptes type filename subsection (i + 1) rest
      end
  end.

Definition dump_subsection (type filename : string)
    (subsection : SUBSECTION) : list (Row * Write) :=
  dump_ptes type filename subsection 0 (SubsectionBase subsection).

Definition _dump_ca (ca : CONTROL_AREA) (type filename : string)
    : list (Row * Write) :=
  flat_map (dump_subsection type filename) (subsections ca).

(** The 4 KB pages of one VACB that translate. *)
Definition dump_vacb (filename : string) (vacb : VACB) : list (Row * Write) :=
  let base_address := BaseAddress vacb in
  let file_offset := FileOffset vacb in
  omap (fun offset =>
          match vtop kernel_address_space (base_address + offset) with
          | Some phys_address =>
              if decide (phys_address ≠ 0)
              then Some (mkRow "VACB" phys_address (file_offset + offset)
                               0x1000 filename,
                         mkWrite (file_offset + offset)
                                 (read physical_address_space phys_address 0x1000))
              else None
          | None => None
          end)
       vacb_page_offsets.

(** The body of the [with renderer.open(...) as out_fd] block. *)
Definition dump_file_object (vacb_by_cache_map : gmap Z (list VACB))
    (file_object : FILE_OBJECT) (filename : string) : list (Row * Write) :=
  let filename := out_fd_name filename in
  (match ImageSectionObject file_object with
   | Some ca => _dump_ca ca "ImageSectionObject" filename
   | None => []
   end)
  ++ (match DataSectionObject file_object with
      | Some ca => _dump_ca ca "DataSectionObject" filename
      | None => []
      end)
  ++ (let scm := SectionSharedCacheMap file_object in
      flat_map (dump_vacb filename) (default [] (vacb_by_cache_map !! scm))).

(** The loop of [render] over the candidate file objects, in the order the
    set yields them.  Each element of the result is one stream opened:
    its filename and what was rendered and written while it was open. *)
Fixpoint render_loop (vacb_by_cache_map : gmap Z (list VACB))
    (file_objects : list FILE_OBJECT) (seen_filenames : gset string)
    : list (string * list (Row * Write)) :=
  match file_objects with
  | [] => []
  | file_object :: rest =>
      let filename := replace_backslash (file_name_with_device file_object) in
      if decide (filename ∈ seen_filenames)
      then render_loop vacb_by_cache_map rest seen_filenames
      else (filename, dump_file_object vacb_by_cache_map file_object filename)
           :: render_loop vacb_by_cache_map rest ({[filename]} ∪ seen_filenames)
  end.

End Plugin.

(** *** CollectFileObject *)

(** The file objects one task contributes, in the order they are added. *)
Definition task_file_objects (task : Task) : list FILE_OBJECT :=
  omap id (vad_file_pointers task)
  ++ omap (fun handle => if decide (handle.1 = "File") then Some handle.2 else None)
          (handles task).

(** Every [self.file_objects.add], in order. *)
Definition discovered (tasks : list Task) : list FILE_OBJECT :=
  flat_map task_file_objects tasks.

(** The tally of VACBs by shared cache map. *)
Fixpoint tally (vacbs : list VACB) (vacb_by_cache_map : gmap Z (list VACB))
    : gmap Z (list VACB) :=
  match vacbs with
  | [] => vacb_by_cache_map
  | vacb :: rest =>
      let shared_cache_map := SharedCacheMap vacb in
      if decide (shared_cache_map ≠ 0)
      then tally rest
             (<[shared_cache_map :=
                  default [] (vacb_by_cache_map !! shared_cache_map) ++ [vacb]]>
                vacb_by_cache_map)
      else tally rest vacb_by_cache_map
  end.

Definition CollectFileObject (profile : Profile) (tasks : list Task)
    : list FILE_OBJECT * gmap Z (list VACB) :=
  (discovered tasks,
   tally (Probe.run (EnumerateVacbs.GetVACBs profile)).1 ∅).

(** [self.file_objects] is a Python set: it holds each file object added
    once, and a [for] loop over it yields them in an order the interpreter
    chooses.  [iteration] is such an order for the objects [added]. *)
Definition set_iteration (added iteration : list FILE_OBJECT) : Prop :=
  NoDup iteration ∧ ∀ file_object, file_object ∈ iteration ↔ file_object ∈ added.

(** [render], given the order in which the set yields its members. *)
Definition render (kernel_address_space : KernelAddressSpace)
    (physical_address_space : PhysicalAddressSpace)
    (out_fd_name : string -> string)
    (profile : Profile) (tasks : list Task) (iteration : list FILE_OBJECT)
    : list (string * list (Row * Write)) :=
  let '(_, vacb_by_cache_map) := CollectFileObject profile tasks in
  render_loop kernel_address_space physical_address_space out_fd_name
              vacb_by_cache_map iteration ∅.

(** The rows of the table and the writes of one stream. *)
Definition rows (out : list (Row * Write)) : list Row := fst <$> out.
Definition writes (out : list (Row * Write)) : list Write := snd <$> out.

(** The streams opened under a filename. *)
Definition streams_named (filename : string)
    (opened : list (string * list (Row * Write))) : list (list Write) :=
  omap (fun stream => if decide (stream.1 = filename)
                      then Some (writes stream.2) else None) opened.

(** The output filename of a file object. *)
Definition output_filename (file_object : FILE_OBJECT) : string :=
  replace_backslash (file_name_with_device file_object).

(** The bytes a sparse stream holds after its writes, by position; a
    position never written is a hole. *)
Fixpoint write_at (content : gmap Z byte) (position : Z) (bytes : list byte)
    : gmap Z byte :=
  match bytes with
  | [] => content
  | b :: rest => write_at (<[position := b]> content) (position + 1) rest
  end.

Definition stream_bytes (stream : list Write) : gmap Z byte :=
  foldl (fun content w => write_at content (seek w) (data w)) ∅ stream.

(** The byte lengths of the ranges rendered, summed. *)
Definition total_length (out : list (Row * Write)) : Z :=
  foldr (fun range total => Flength range.1 + total) 0 out.

(** The two literals of [_dump_ca]. *)
Definition sector_size : Z := 512.
Definition page_size : Z := 0x1000.

End DumpFiles.

(** ** Objects read by MftDump *)

(** Modelled from the spec: the object system's placeholder for an absent
    value ("absent ids read as a null/placeholder value rather than failing").
    [None] is the placeholder; reading an attribute of the placeholder, or
    calling it, gives the placeholder again, which is [≫=] and [<$>] on
    [option]. *)
Definition Placeholder (A : Type) : Type := option A.

(** The decoded [$STANDARD_INFORMATION] attribute. *)
Record STANDARD_INFORMATION := mkStandardInformation {
  file_altered_time : Z;
  mft_altered_time : Z;
  file_accessed_time : Z;
  create_time : Z
}.

(** An [MFT_ENTRY] decoded in place.  [standard_information] is
    [get_attribute("$STANDARD_INFORMATION").DecodeAttribute()], the
    placeholder when the record has no such attribute. *)
Record MFT_ENTRY := mkMftEntry {
  magic : string;
  mft_entry : Z;
  filename_mftReference : Z;      (* mft.filename.mftReference.v() *)
  filename_name : string;         (* mft.filename.name *)
  standard_information : Placeholder STANDARD_INFORMATION
}.

(** A row of the tree table. *)
Record TreeRow := mkTreeRow {
  MFT : Z;
  file_modified : Placeholder Z;
  mft_modified : Placeholder Z;
  access : Placeholder Z;
  create : Placeholder Z;
  Name : Placeholder string;
  depth : nat
}.

(** What [dir_tree] maps an id to: the [{}] that [__init__] stores under id 2,
    or a [set()] of child ids. *)
Inductive Children :=
| EmptyDict
| IdSet (ids : gset Z).

(** How a call ends: it returns, or an exception leaves it. *)
Inductive Outcome (A : Type) :=
| Returned (a : A)
| Raised (exception : string).
Arguments Returned {A} a.
Arguments Raised {A} exception.

(** ** MftDump *)
Module MftDump.

Record State := mkState {
  mfts : gmap Z MFT_ENTRY;
  dir_tree : gmap Z Children
}.

(** [SparseArray.__getitem__] *)
Definition SparseArray_getitem (self : gmap Z MFT_ENTRY) (key : Z)
    : Placeholder MFT_ENTRY :=
  match self !! key with
  | Some mft => Some mft
  | None => None            (* obj.NoneObject() *)
  end.

Definition mft_size : Z := 0x400.
Definition vacb_size : Z := 0x40000.

(** [__init__] *)
Definition init : State :=
  {| mfts := ∅; dir_tree := {[ 2 := EmptyDict ]} |}.

(** [children.add(mft_id)]: a [dict] has no [add]. *)
Definition add (children : Children) (mft_id : Z) : Outcome Children :=
  match children with
  | IdSet ids => Returned (IdSet ({[mft_id]} ∪ ids))
  | EmptyDict => Raised "AttributeError"
  end.

(** The body of the loop of [extract_mft_entries_from_vacb] for one decoded
    record. *)
Definition extract_mft_entry (self : State) (mft : MFT_ENTRY) : Outcome State :=
  if decide (magic mft ≠ "FILE") then Returned self      (* continue *)
  else
    let mft_id := mft_entry mft in
    let mfts := <[mft_id := mft]> (mfts self) in
    let parent_id := filename_mftReference mft in
    let dir_tree :=
      if decide (parent_id ∉ dom (dir_tree self))
      then <[parent_id := IdSet ∅]> (dir_tree self)
      else dir_tree self in
    match dir_tree !! parent_id with
    | None => Raised "KeyError"
    | Some children =>
        match add children mft_id with
        | Raised e => Raised e
        | Returned children =>
            Returned {| mfts := mfts;
                        dir_tree := <[parent_id := children]> dir_tree |}
        end
    end.

(** [xrange(base, base + self.vacb_size, self.mft_size)] *)
Definition mft_offsets (base : Z) : list Z :=
  (fun k => base + k * mft_size) <$> seqZ 0 (vacb_size / mft_size).

Section Plugin.
(** [self.ntfs_profile.MFT_ENTRY(offset, ...)]: the record decoded at an
    address, fix-ups not applied. *)
Variable ntfs_MFT_ENTRY : Z -> MFT_ENTRY.

Fixpoint extract_at (self : State) (offsets : list Z) : Outcome State :=
  match offsets with
  | [] => Returned self
  | offset :: rest =>
      match extract_mft_entry self (ntfs_MFT_ENTRY offset) with
      | Raised e => Raised e
      | Returned self => extract_at self rest
      end
  end.

Definition extract_mft_entries_from_vacb (self : State) (vacb : VACB)
    : Outcome State :=
  extract_at self (mft_offsets (BaseAddress vacb)).

(** The first loop of [render]. *)
Fixpoint extract_all (self : State) (vacbs : list VACB) : Outcome State :=
  match vacbs with
  | [] => Returned self
  | vacb :: rest =>
      if decide (FileName vacb = "\$Mft")
      then match extract_mft_entries_from_vacb self vacb with
           | Raised e => Raised e
           | Returned self => extract_all self rest
           end
      else extract_all self rest
  end.
End Plugin.

(** [sorted(self.dir_tree.get(root, []))] *)
Definition sorted_children (dir_tree : gmap Z Children) (root : Z) : list Z :=
  match dir_tree !! root with
  | Some (IdSet ids) => merge_sort Z.le (elements ids)
  | Some EmptyDict => []
  | None => []
  end.

(** The [for child in ...] loop of [render_tree]; [visit] is the recursive
    call.  [seen] is the one set every call adds to, so it is passed in and
    handed back.  [None] only when [visit] gives [None]. *)
Definition for_children (visit : Z -> gset Z -> option (list TreeRow * gset Z))
    : list Z -> gset Z -> option (list TreeRow * gset Z) :=
  fix loop (children : list Z) (seen : gset Z) :=
    match children with
    | [] => Some ([], seen)
    | child :: rest =>
        if decide (child ∉ seen)
        then match visit child seen with
             | None => None
             | Some (rows1, seen) =>
                 match loop rest seen with
                 | None => None
                 | Some (rows2, seen) => Some (rows1 ++ rows2, seen)
                 end
             end
        else loop rest seen
    end.

(** The row [render_tree] renders for [root]. *)
Definition tree_row (self : State) (root : Z) (depth : nat) : TreeRow :=
  let mft := SparseArray_getitem (mfts self) root in
  let standard_info := mft ≫= standard_information in
  {| MFT := root;
     file_modified := file_altered_time <$> standard_info;
     mft_modified := mft_altered_time <$> standard_info;
     access := file_accessed_time <$> standard_info;
     create := create_time <$> standard_info;
     Name := filename_name <$> SparseArray_getitem (mfts self) root;
     depth := depth |}.

(** [render_tree].  The recursion of the source is not structural, so the
    embedding counts calls down from [fuel]; [None] means the count ran
    out, never that the source stopped.  The bound the interpreter itself
    puts on nested calls, and the exception it raises there, are the
    subject of [Recursion.render_tree] further down. *)
Fixpoint render_tree (fuel : nat) (self : State) (root : Z) (seen : gset Z)
    (depth : nat) : option (list TreeRow * gset Z) :=
  match fuel with
  | O => None
  | S fuel =>
      if decide (root ∉ dom (mfts self) ∨ root ∈ seen) then Some ([], seen)
      else
        let row := tree_row self root depth in
        let seen := {[root]} ∪ seen in
        match for_children
                (fun child seen => render_tree fuel self child seen (S depth))
                (sorted_children (dir_tree self) root) seen with
        | None => None
        | Some (rows, seen) => Some (row :: rows, seen)
        end
  end.

(** The last loop of [render]: [for mft_id in self.dir_tree], the keys in
    the order [roots] the dict yields them. *)
Fixpoint render_roots (fuel : nat) (self : State) (roots : list Z)
    (seen : gset Z) : option (list TreeRow * gset Z) :=
  match roots with
  | [] => Some ([], seen)
  | mft_id :: rest =>
      match render_tree fuel self mft_id seen 0 with
      | None => None
      | Some (rows1, seen) =>
          match render_roots fuel self rest seen with
          | None => None
          | Some (rows2, seen) => Some (rows1 ++ rows2, seen)
          end
      end
  end.

(** An order in which a [for] loop over [dir_tree] may yield its keys. *)
Definition dict_iteration (dir_tree : gmap Z Children) (roots : list Z) : Prop :=
  NoDup roots ∧ ∀ mft_id, mft_id ∈ roots ↔ mft_id ∈ dom dir_tree.

(** [render]: extraction over the VACBs of [$Mft], then the traversal from
    every key of [dir_tree], in the order [roots] the dict yields them.  An
    exception raised during extraction leaves [render]. *)
Definition render (ntfs_MFT_ENTRY : Z -> MFT_ENTRY) (profile : Profile)
    (roots : State -> list Z) (fuel : nat) : Outcome (option (list TreeRow)) :=
  match extract_all ntfs_MFT_ENTRY init
          (Probe.run (EnumerateVacbs.GetVACBs profile)).1 with
  | Raised e => Raised e
  | Returned self =>
      Returned (fst <$> render_roots fuel self (roots self) ∅)
  end.

(** Calls enough for any traversal over [self]. *)
Definition enough_fuel (self : State) : nat := S (size (dom (mfts self))).

(** What one call, or one loop, of the traversal has done when it hands back
    [seen'] for [seen]: the ids of the rows it rendered are new, pairwise
    distinct, present in [mfts], and are exactly what was added to [seen]. *)
Definition rendered (self : State) (seen : gset Z) (rows : list TreeRow)
    (seen' : gset Z) : Prop :=
  seen' = list_to_set (MFT <$> rows) ∪ seen
  ∧ NoDup (MFT <$> rows)
  ∧ ∀ mft_id, mft_id ∈ (MFT <$> rows) →
              (mft_id ∉ seen) ∧ (mft_id ∈ dom (mfts self)).

End MftDump.

(** ** Sample snapshots *)
Module Sample.

(** An address space that resolves prototype PTEs: an entry with the valid
    bit set maps to its frame, any other to nothing. *)
Definition kernel_address_space : KernelAddressSpace :=
  {| ResolveProtoPTE :=
       Some (fun pte_value _ =>
               if Z.testbit pte_value 0
               then Some (Z.land pte_value 0xffffffffff000) else None);
     vtop := fun _ => None |}.

(** Sixteen megabytes of physical memory; the page at [0x1000] holds ones,
    every other page twos. *)
Definition physical_address_space : PhysicalAddressSpace :=
  {| phys_end := 0xffffff;
     read := fun address length =>
               replicate (Z.to_nat length)
                         (if address =? 0x1000 then x01 else x02) |}.

(** Three PTEs over sixteen declared sectors; the middle one is not mapped. *)
Definition subsection : SUBSECTION :=
  mkSubsection 0 16 [mkPTE 0x1001; mkPTE 0x2000; mkPTE 0x3001].

(** One subsection of 4 full sectors whose PTE is valid. *)
Definition four_sectors : CONTROL_AREA :=
  mkControlArea [mkSubsection 0 4 [mkPTE 0x1001]].

(** Two file objects, at different addresses and backed by different pages,
    whose names differ only in a backslash. *)
Definition file_a : FILE_OBJECT :=
  mkFileObject 0x100 "\Device\f" None
    (Some (mkControlArea [mkSubsection 0 1 [mkPTE 0x1001]])) 0.
Definition file_b : FILE_OBJECT :=
  mkFileObject 0x200 "\Device_f" None
    (Some (mkControlArea [mkSubsection 0 1 [mkPTE 0x2001]])) 0.

(** A process that maps [file_a] and holds a handle to [file_b]. *)
Definition tasks : list Task :=
  [mkTask "p" [Some file_a] [("File", file_b)]].

(** A profile that resolves nothing: no VACB at all. *)
Definition profile : Profile :=
  {| get_constant := fun _ => 0;
     constant_uint := fun _ => 0;
     constant_vacb_array := fun _ _ => [];
     constant_header_array := fun _ _ => [] |}.

(** A third file object, with a name of its own, and a process that maps it
    besides [file_a]. *)
Definition file_c : FILE_OBJECT :=
  mkFileObject 0x300 "\Device\g" None
    (Some (mkControlArea [mkSubsection 0 1 [mkPTE 0x3001]])) 0.
Definition other_tasks : list Task :=
  [mkTask "q" [Some file_a; None; Some file_c] []].

Definition times : STANDARD_INFORMATION := mkStandardInformation 1 2 3 4.

(** A cache block of [$Mft] at address 0 whose first record is live, has id 5
    and names id 2 as its parent; the other records are not live. *)
Definition root_child_block (offset : Z) : MFT_ENTRY :=
  if offset =? 0 then mkMftEntry "FILE" 5 2 "a" (Some times)
  else mkMftEntry "BAAD" 0 0 "" None.
Definition mft_vacb : VACB := mkVACB 0 0 0 0 0 "\$Mft".

(** Two live records that name each other as parent. *)
Definition cycle_block (offset : Z) : MFT_ENTRY :=
  if offset =? 0 then mkMftEntry "FILE" 10 11 "a" (Some times)
  else if offset =? 0x400 then mkMftEntry "FILE" 11 10 "b" (Some times)
  else mkMftEntry "BAAD" 0 0 "" None.


(** The state after extraction, [init] if extraction raised. *)
Definition extracted (block : Z -> MFT_ENTRY) : MftDump.State :=
  match MftDump.extract_mft_entries_from_vacb block MftDump.init mft_vacb with
  | Returned self => self
  | Raised _ => MftDump.init
  end.

End Sample.

(** ** The vacbs table ([EnumerateVacbs.render]) *)
Module Vacbs.

(** A row of the table: the VACB, whether its base is mapped, its base, its
    file offset and the name of its file. *)
Record VacbRow := mkVacbRow {
  row_vacb : VACB;
  Present : bool;
  Base : Z;
  Offset : Z;
  Filename : string
}.

Section Plugin.
Variable kernel_address_space : KernelAddressSpace.
(** [vacb.SharedCacheMap.FileObject.file_name_with_drive()], the empty string
    when the file has no name (a false value in the source). *)
Variable file_name_with_drive : VACB -> string.

(** [bool(self.kernel_address_space.vtop(vacb.BaseAddress.v()))] *)
Definition present (vacb : VACB) : bool :=
  match vtop kernel_address_space (BaseAddress vacb) with
  | Some phys_address => bool_decide (phys_address ≠ 0)
  | None => false
  end.

(** The loop of [render] over the VACBs enumerated. *)
Fixpoint render_rows (vacbs : list VACB) : list VacbRow :=
  match vacbs with
  | [] => []
  | vacb :: rest =>
      let filename := file_name_with_drive vacb in
      if decide (filename ≠ "")
      then mkVacbRow vacb (present vacb) (BaseAddress vacb) (FileOffset vacb)
                     filename :: render_rows rest
      else render_rows rest
  end.

Definition render (profile : Profile) : list VacbRow :=
  render_rows (Probe.run (EnumerateVacbs.GetVACBs profile)).1.

End Plugin.
End Vacbs.

(** ** The Darwin address resolver ([plugins/darwin/address_resolver.py]) *)
Module DarwinAddressResolver.

(** A [kmod_info] as [lsmod] lists it. *)
Record kmod_info := mkKmod {
  kmod_name : string;       (* unicode(kmod.name) *)
  kmod_address : Z;         (* kmod.address.v() *)
  kmod_size : Z             (* kmod.size.v() *)
}.

Section Plugin.
(** The session's profile, whatever it is. *)
Variable SessionProfile : Type.
Variable session_profile : SessionProfile.

(** A [KModModule]: the fields [Module.__init__] stores, and the profile
    that [KModModule.__init__] assigns, [None] when it assigns none. *)
Record KModModule := mkKModModule {
  kmod : kmod_info;
  name : string;
  start : Z;
  module_end : Z;           (* end *)
  module_profile : option SessionProfile
}.

(** [KModModule.__init__] *)
Definition KModModule_init (kmod : kmod_info) : KModModule :=
  let start := kmod_address kmod in
  let name := kmod_name kmod in
  {| kmod := kmod;
     name := name;
     start := start;
     module_end := start + kmod_size kmod;
     module_profile :=
       if decide (name = "__kernel__") then Some session_profile else None |}.

Record Resolver := mkResolver {
  _initialized : bool;
  modules : list KModModule
}.

(** Modelled from the spec: [AddModule] belongs to the common resolver mixin,
    which is not part of the plugin; the plugin "merely aggregates a list of
    loaded kernel modules", so [AddModule] appends to that list. *)
Definition AddModule (self : Resolver) (module : KModModule) : Resolver :=
  {| _initialized := _initialized self; modules := modules self ++ [module] |}.

(** [_EnsureInitialized]; [get_module_list] is what
    [self.session.plugins.lsmod().get_module_list()] yields. *)
Definition _EnsureInitialized (get_module_list : list kmod_info)
    (self : Resolver) : Resolver :=
  if _initialized self then self
  else
    let self :=
      foldl (fun self kmod => AddModule self (KModModule_init kmod))
            self get_module_list in
    {| _initialized := true; modules := modules self |}.

End Plugin.
End DarwinAddressResolver.

(** ** What extraction keeps true of the MFT state *)
Module Registry.
Import MftDump.

(** Id 2 still holds the [{}] it was seeded with; every other key of
    [dir_tree] holds a set, not empty, of ids that have an entry; and every
    entry is live, is stored under its own id and is listed in the set of
    its parent. *)
Definition registered (self : State) : Prop :=
  dir_tree self !! 2 = Some EmptyDict
  ∧ (∀ parent children,
       dir_tree self !! parent = Some children → parent ≠ 2 →
       ∃ ids, children = IdSet ids ∧ ids ≠ ∅
              ∧ ∀ mft_id, mft_id ∈ ids → mft_id ∈ dom (mfts self))
  ∧ (∀ mft_id mft,
       mfts self !! mft_id = Some mft →
       magic mft = "FILE" ∧ mft_entry mft = mft_id
       ∧ ∃ ids, dir_tree self !! filename_mftReference mft = Some (IdSet ids)
                ∧ mft_id ∈ ids).

(** A record that is live and names id 2 as its parent. *)
Definition child_of_root (mft : MFT_ENTRY) : Prop :=
  magic mft = "FILE" ∧ filename_mftReference mft = 2.

End Registry.

(** ** The traversal under the interpreter's recursion limit *)
Module Recursion.
Import MftDump.

(** How the traversal ends: it finishes, or an exception leaves it, in both
    cases after the rows rendered so far and with [seen] as it stands. *)
Inductive Traversal :=
| Finished (rows : list TreeRow) (seen : gset Z)
| Aborted (rows : list TreeRow) (seen : gset Z) (exception : string).

(** What has been rendered. *)
Definition rendered_rows (t : Traversal) : list TreeRow :=
  match t with
  | Finished rows _ => rows
  | Aborted rows _ _ => rows
  end.

(** [t], with [rows] rendered before it. *)
Definition after (rows : list TreeRow) (t : Traversal) : Traversal :=
  match t with
  | Finished rows' seen => Finished (rows ++ rows') seen
  | Aborted rows' seen exception => Aborted (rows ++ rows') seen exception
  end.

(** The [for child in ...] loop of [render_tree]: an exception in a
    recursive call leaves the loop. *)
Definition for_children (visit : Z -> gset Z -> Traversal)
    : list Z -> gset Z -> Traversal :=
  fix loop (children : list Z) (seen : gset Z) :=
    match children with
    | [] => Finished [] seen
    | child :: rest =>
        if decide (child ∉ seen)
        then match visit child seen with
             | Finished rows1 seen => after rows1 (loop rest seen)
             | Aborted rows1 seen exception => Aborted rows1 seen exception
             end
        else loop rest seen
    end.

(** [render_tree] when the interpreter allows [frames] more nested calls of
    it: with none left the call raises [RuntimeError] (maximum recursion
    depth exceeded; Python 3 names it [RecursionError]) before it does
    anything, and the source catches it nowhere. *)
Fixpoint render_tree (frames : nat) (self : State) (root : Z) (seen : gset Z)
    (depth : nat) : Traversal :=
  match frames with
  | O => Aborted [] seen "RuntimeError"
  | S frames =>
      if decide (root ∉ dom (mfts self) ∨ root ∈ seen) then Finished [] seen
      else
        let row := tree_row self root depth in
        let seen := {[root]} ∪ seen in
        after [row]
          (for_children
             (fun child seen => render_tree frames self child seen (S depth))
             (sorted_children (dir_tree self) root) seen)
  end.

(** The last loop of [render]. *)
Fixpoint render_roots (frames : nat) (self : State) (roots : list Z)
    (seen : gset Z) : Traversal :=
  match roots with
  | [] => Finished [] seen
  | mft_id :: rest =>
      match render_tree frames self mft_id seen 0 with
      | Finished rows1 seen => after rows1 (render_roots frames self rest seen)
      | Aborted rows1 seen exception => Aborted rows1 seen exception
      end
  end.

(** [render]: an exception raised during extraction leaves it before any
    row. *)
Definition render (ntfs_MFT_ENTRY : Z -> MFT_ENTRY) (profile : Profile)
    (roots : State -> list Z) (frames : nat) : Traversal :=
  match extract_all ntfs_MFT_ENTRY init
          (Probe.run (EnumerateVacbs.GetVACBs profile)).1 with
  | Raised exception => Aborted [] ∅ exception
  | Returned self => render_roots frames self (roots self) ∅
  end.

(** What holds of a traversal started with [seen], however it ended: the
    rows it rendered are as [MftDump.rendered] says, and the exception, if
    any, is the interpreter's. *)
Definition sound (self : State) (seen : gset Z) (t : Traversal) : Prop :=
  match t with
  | Finished rows seen' => rendered self seen rows seen'
  | Aborted rows seen' exception =>
      rendered self seen rows seen' ∧ exception = "RuntimeError"
  end.

(** The traversal as [MftDump.render_tree] gives it, when it finished. *)
Definition finished (t : Traversal) : option (list TreeRow * gset Z) :=
  match t with
  | Finished rows seen => Some (rows, seen)
  | Aborted _ _ _ => None
  end.

End Recursion.

(** ** More sample snapshots *)
Module Fixture.

(** A file object at another address with the output filename and the
    backing pages of [Sample.file_a], and a process that maps both. *)
Definition file_a_twin : FILE_OBJECT :=
  mkFileObject 0x400 "\Device_f" None
    (Some (mkControlArea [mkSubsection 0 1 [mkPTE 0x1001]])) 0.
Definition twin_tasks : list Task :=
  [mkTask "r" [Some Sample.file_a; Some file_a_twin] []].

(** A profile of the legacy layout whose one VACB is a block of [$Mft]. *)
Definition mft_profile : Profile :=
  {| get_constant := fun _ => 0x8000;
     constant_uint := fun _ => 1;
     constant_vacb_array := fun _ _ => [Sample.mft_vacb];
     constant_header_array := fun _ _ => [] |}.

(** An address space without [ResolveProtoPTE]. *)
Definition plain_address_space : KernelAddressSpace :=
  {| ResolveProtoPTE := None; vtop := fun _ => None |}.

(** Twenty declared sectors under three valid PTEs. *)
Definition resident : SUBSECTION :=
  mkSubsection 8 20 [mkPTE 0x1001; mkPTE 0x2001; mkPTE 0x3001].

(** A live record of id 6 in the directory of id 5, and the record of that
    directory, whose parent is not resident. *)
Definition directory_block (offset : Z) : MFT_ENTRY :=
  if offset =? 0 then mkMftEntry "FILE" 6 5 "file" (Some Sample.times)
  else if offset =? 0x400 then mkMftEntry "FILE" 5 9 "dir" (Some Sample.times)
  else mkMftEntry "BAAD" 0 0 "" None.

(** A profile of the legacy layout with one VACB, of a file that is not
    [$Mft]. *)
Definition legacy_profile : Profile :=
  {| get_constant := fun _ => 0x8000;
     constant_uint := fun _ => 1;
     constant_vacb_array := fun _ _ => [mkVACB 0x10 0x20000 0x30 0 0 "\a.txt"];
     constant_header_array := fun _ _ => [] |}.

End Fixture.

(** * Properties *)

(** ** The VACB enumerator *)
Section EnumerateVacbsFacts.
Import EnumerateVacbs.

Lemma scan_table_filter table slots :
  scan_table table slots
  = filter (fun vacb => ArrayHead vacb = table_ptr table) slots.
Proof.
  induction slots as [|vacb rest IH]; [done|].
  cbn [scan_table]. rewrite filter_cons, IH.
  destruct (decide (ArrayHead vacb ≠ table_ptr table)) as [Hne|Heq];
    destruct (decide (ArrayHead vacb = table_ptr table));
    first [done | by destruct Heq].
Qed.

Lemma scan_tables_flat_map vacb_arrays :
  scan_tables vacb_arrays
  = flat_map (fun table =>
                filter (fun vacb => ArrayHead vacb = table_ptr table) (VACBs table))
             vacb_arrays.
Proof.
  induction vacb_arrays as [|table rest IH]; [done|].
  cbn [scan_tables flat_map]. by rewrite scan_table_filter, IH.
Qed.

Lemma elem_of_scan_tables vacb vacb_arrays :
  vacb ∈ scan_tables vacb_arrays
  ↔ ∃ table, table ∈ vacb_arrays ∧ vacb ∈ VACBs table
             ∧ ArrayHead vacb = table_ptr table.
Proof.
  induction vacb_arrays as [|table rest IH]; cbn [scan_tables].
  - split; [by intros ?%elem_of_nil | by intros (? & ?%elem_of_nil & _)].
  - rewrite elem_of_app, IH, scan_table_filter, list_elem_of_filter.
    split.
    + intros [[Hhead Hin] | (t & Ht & Hin & Hhead)].
      * exists table. split_and!; [left | done | done].
      * exists t. split_and!; [by right | done | done].
    + intros (t & Ht & Hin & Hhead).
      apply elem_of_cons in Ht as [-> | Ht]; [by left | right; eauto].
Qed.

(** C7.  In the multi-table layout the enumerated sequence is, table after
    table, exactly the slots of that table whose [ArrayHead] is the table:
    a VACB is enumerated if and only if some table holds it in a slot and
    its back-reference is that table, so a slot whose back-reference
    differs from the table it sits in is never produced from it. *)
Theorem GetVACBs_Win7_stale_filter (profile : Profile) (log : list string) :
  (GetVACBs_Win7 profile log).1
  = flat_map (fun table =>
                filter (fun vacb => ArrayHead vacb = table_ptr table) (VACBs table))
             (vacb_tables profile)
  ∧ ∀ vacb, vacb ∈ (GetVACBs_Win7 profile log).1
            ↔ ∃ table, table ∈ vacb_tables profile ∧ vacb ∈ VACBs table
                       ∧ ArrayHead vacb = table_ptr table.
Proof.
  assert ((GetVACBs_Win7 profile log).1 = scan_tables (vacb_tables profile))
    as -> by reflexivity.
  split; [apply scan_tables_flat_map | intros vacb; apply elem_of_scan_tables].
Qed.

(** C2.  [GetVACBs] consults [CcVacbs] once, first, and that value alone
    picks the layout.  When it is not null the result is the whole legacy
    array, every entry, and what is consulted afterwards is what
    [GetVACBs_WinXP] consults, none of it a global of the multi-table
    layout.  When it is null the result is that of [GetVACBs_Win7], and
    nothing consulted after the probe is a legacy global. *)
Theorem GetVACBs_dispatch (profile : Profile) :
  ∃ vacbs path,
    Probe.run (GetVACBs profile) = (vacbs, "CcVacbs" :: path)
    ∧ if decide (get_constant profile "CcVacbs" ≠ 0)
      then vacbs = constant_vacb_array profile "CcVacbs"
                     (Z.to_nat (constant_uint profile "CcNumberVacbs"))
           ∧ Probe.run (GetVACBs_WinXP profile) = (vacbs, path)
           ∧ path = ["CcNumberVacbs"; "CcVacbs"]
           ∧ Forall (fun name => name ∉ table_globals) path
      else vacbs = scan_tables (vacb_tables profile)
           ∧ Probe.run (GetVACBs_Win7 profile) = (vacbs, path)
           ∧ path = ["CcVacbArraysAllocated"; "CcVacbArrays"]
           ∧ Forall (fun name => name ∉ legacy_globals) path.
Proof.
  unfold Probe.run, GetVACBs, Probe.bind, Probe.consult. cbn [app].
  destruct (decide (get_constant profile "CcVacbs" ≠ 0)).
  - eexists _, _. split; [reflexivity|].
    split_and!; [reflexivity..|].
    by apply (bool_decide_unpack _).
  - eexists _, _. split; [reflexivity|].
    split_and!; [reflexivity..|].
    by apply (bool_decide_unpack _).
Qed.

End EnumerateVacbsFacts.

(** ** The backing-store walker *)
Section WalkerFacts.
Import DumpFiles.
Variable kernel_address_space : KernelAddressSpace.
Variable physical_address_space : PhysicalAddressSpace.
Variables type filename : string.

Local Abbreviation dump_pte := (dump_pte kernel_address_space physical_address_space type filename).
Local Abbreviation dump_ptes := (dump_ptes kernel_address_space physical_address_space type filename).
Local Abbreviation dump_subsection :=
  (dump_subsection kernel_address_space physical_address_space type filename).

Lemma sectors_per_page_eq : sectors_per_page = 8.
Proof. reflexivity. Qed.

(** What a page that is not passed over renders. *)
Lemma dump_pte_Some subsection i pte range :
  dump_pte subsection i pte = Some range →
  0 ≤ Flength range.1
  ∧ Flength range.1
    = Z.min 8 (NumberOfFullSectors subsection - i * 8) * 512
  ∧ FOffset range.1 = (StartingSector subsection + i * 8) * 512
  ∧ seek range.2 = FOffset range.1.
Proof.
  unfold DumpFiles.dump_pte. rewrite sectors_per_page_eq.
  destruct (resolve_pte _ pte) as [phys_address|]; [|done].
  repeat case_decide; [done..|].
  intros [= <-]. cbn. lia.
Qed.

(** From page [i] on, no more is rendered than the sectors the subsection
    still declares. *)
Lemma dump_ptes_total_length subsection ptes i :
  total_length (dump_ptes subsection i ptes)
  ≤ Z.max 0 (NumberOfFullSectors subsection - i * 8) * 512.
Proof.
  revert i. induction ptes as [|pte rest IH]; intros i; cbn [DumpFiles.dump_ptes].
  - cbn. lia.
  - specialize (IH (i + 1)).
    destruct (dump_pte subsection i pte) as [range|] eqn:Hpte.
    + apply dump_pte_Some in Hpte as (Hnonneg & Hlen & _).
      cbn [total_length foldr]. fold (total_length (dump_ptes subsection (i + 1) rest)).
      lia.
    + lia.
Qed.

Lemma dump_ptes_offsets subsection ptes i :
  0 ≤ i →
  Forall (fun range => StartingSector subsection * 512 ≤ FOffset range.1)
         (dump_ptes subsection i ptes).
Proof.
  revert i. induction ptes as [|pte rest IH]; intros i Hi; cbn [DumpFiles.dump_ptes].
  - constructor.
  - destruct (dump_pte subsection i pte) as [range|] eqn:Hpte.
    + constructor; [|apply IH; lia].
      apply dump_pte_Some in Hpte as (_ & _ & -> & _). lia.
    + apply IH; lia.
Qed.

(** C3.  For a subsection whose declared sector count is not negative (the
    field is an unsigned integer), the byte lengths of the ranges the walker
    renders for it sum to at most [NumberOfFullSectors * 512], and every
    range starts at or after [StartingSector * 512]. *)
Theorem dump_subsection_within_declared_sectors (subsection : SUBSECTION) :
  0 ≤ NumberOfFullSectors subsection →
  total_length (dump_subsection subsection)
  ≤ NumberOfFullSectors subsection * sector_size
  ∧ Forall (fun range => StartingSector subsection * sector_size ≤ FOffset range.1)
           (dump_subsection subsection).
Proof.
  intros Hdeclared. unfold DumpFiles.dump_subsection, sector_size. split.
  - pose proof (dump_ptes_total_length subsection (SubsectionBase subsection) 0). lia.
  - by apply dump_ptes_offsets.
Qed.

Lemma dump_ptes_app subsection before after i :
  dump_ptes subsection i (before ++ after)
  = dump_ptes subsection i before
    ++ dump_ptes subsection (i + Z.of_nat (length before)) after.
Proof.
  revert i. induction before as [|pte rest IH]; intros i.
  - cbn. by rewrite Z.add_0_r.
  - cbn [app DumpFiles.dump_ptes length]. rewrite IH.
    replace (i + 1 + Z.of_nat (length rest)) with (i + Z.of_nat (S (length rest))) by lia.
    by destruct (dump_pte subsection i pte).
Qed.

(** The three anomalies of a page, as [_dump_ca] tests them. *)
Lemma dump_pte_skips subsection i pte :
  Z.min sectors_per_page (NumberOfFullSectors subsection - i * sectors_per_page) < 0
  ∨ (∃ resolve, ResolveProtoPTE kernel_address_space = Some resolve
                ∧ resolve (Long pte) 0 = None)
  ∨ (∃ phys_address, resolve_pte kernel_address_space pte = Some phys_address
                     ∧ phys_address > phys_end physical_address_space) →
  dump_pte subsection i pte = None.
Proof.
  unfold DumpFiles.dump_pte.
  intros [Hclamp | [(resolve & Hsupported & Hunmapped) | (phys_address & -> & Hbeyond)]].
  - destruct (resolve_pte _ pte); [|done]. by rewrite decide_True.
  - unfold resolve_pte. by rewrite Hsupported, Hunmapped.
  - case_decide; [done|]. by rewrite decide_True.
Qed.

(** C5.  The walker is a total function of the values it reads: no page makes
    it raise.  At a page whose clamped sector count is negative, or whose
    indirection resolution returns no mapping, or whose resolved physical
    address lies beyond [end()] of the physical address space, nothing is
    rendered or written, and the ranges of the subsection are those of the
    pages before it followed by those of the pages after it, each at its own
    index. *)
Theorem dump_subsection_skips_anomalous_page
    (subsection : SUBSECTION) (before after : list MMPTE) (pte : MMPTE) :
  SubsectionBase subsection = before ++ pte :: after →
  Z.min sectors_per_page
        (NumberOfFullSectors subsection
         - Z.of_nat (length before) * sectors_per_page) < 0
  ∨ (∃ resolve, ResolveProtoPTE kernel_address_space = Some resolve
                ∧ resolve (Long pte) 0 = None)
  ∨ (∃ phys_address, resolve_pte kernel_address_space pte = Some phys_address
                     ∧ phys_address > phys_end physical_address_space) →
  dump_pte subsection (Z.of_nat (length before)) pte = None
  ∧ dump_subsection subsection
    = dump_ptes subsection 0 before
      ++ dump_ptes subsection (Z.of_nat (length before) + 1) after.
Proof.
  intros Hptes Hanomaly. apply dump_pte_skips in Hanomaly. split; [done|].
  unfold DumpFiles.dump_subsection.
  rewrite Hptes, dump_ptes_app. cbn [DumpFiles.dump_ptes].
  rewrite Z.add_0_l. by rewrite Hanomaly.
Qed.

(** Past the last declared sector every page is passed over. *)
Lemma dump_ptes_past_declared subsection ptes i :
  NumberOfFullSectors subsection < i * 8 →
  dump_ptes subsection i ptes = [].
Proof.
  revert i. induction ptes as [|pte rest IH]; intros i Hpast; [done|].
  cbn [DumpFiles.dump_ptes]. rewrite dump_pte_skips, IH; [done | lia |].
  left. rewrite sectors_per_page_eq. lia.
Qed.

(** C10, as amended.  One subsection starting at sector 0 that declares 4 full
    sectors, with a PTE array that is not empty and all of whose entries
    resolve to an address within the physical address space: the walker
    renders exactly one range, at file offset 0, of length [4 * 512] bytes,
    read from the address the first PTE resolves to. *)
Theorem four_sectors_one_range (pte : MMPTE) (ptes : list MMPTE) :
  Forall (fun pte => ∃ phys_address,
            resolve_pte kernel_address_space pte = Some phys_address
            ∧ phys_address ≤ phys_end physical_address_space)
         (pte :: ptes) →
  ∃ phys_address,
    resolve_pte kernel_address_space pte = Some phys_address
    ∧ _dump_ca kernel_address_space physical_address_space
        (mkControlArea [mkSubsection 0 4 (pte :: ptes)]) type filename
      = [(mkRow type phys_address 0 (4 * sector_size) filename,
          mkWrite 0 (read physical_address_space phys_address (4 * sector_size)))].
Proof.
  intros Hvalid. apply Forall_cons in Hvalid as [(phys_address & Hpte & Hwithin) _].
  exists phys_address. split; [done|].
  unfold _dump_ca, DumpFiles.dump_subsection. cbn [subsections flat_map SubsectionBase].
  rewrite app_nil_r. cbn [DumpFiles.dump_ptes].
  rewrite dump_ptes_past_declared by (cbn; lia).
  unfold DumpFiles.dump_pte. rewrite Hpte.
  rewrite decide_False by (vm_compute; discriminate).
  rewrite decide_False by lia. done.
Qed.

End WalkerFacts.

(** ** The file reconstructor *)
Section ReconstructorFacts.
Import DumpFiles.
Variable kernel_address_space : KernelAddressSpace.
Variable physical_address_space : PhysicalAddressSpace.
Variable out_fd_name : string -> string.
Variable vacb_by_cache_map : gmap Z (list VACB).

Local Abbreviation render_loop :=
  (render_loop kernel_address_space physical_address_space out_fd_name
               vacb_by_cache_map).
Local Abbreviation dump_file_object :=
  (dump_file_object kernel_address_space physical_address_space out_fd_name
                    vacb_by_cache_map).

Lemma streams_named_cons filename stream opened :
  streams_named filename (stream :: opened)
  = (if decide (stream.1 = filename) then [writes stream.2] else [])
    ++ streams_named filename opened.
Proof. unfold streams_named. cbn [omap list_omap]. by case_decide. Qed.

(** A filename already seen opens no further stream. *)
Lemma streams_named_seen filename file_objects seen_filenames :
  filename ∈ seen_filenames →
  streams_named filename (render_loop file_objects seen_filenames) = [].
Proof.
  revert seen_filenames.
  induction file_objects as [|file_object rest IH]; intros seen Hseen; [done|].
  cbn [DumpFiles.render_loop]. case_decide as Hdup; [by apply IH|].
  rewrite streams_named_cons. cbn [fst].
  rewrite decide_False by (intros Heq; by rewrite Heq in Hdup).
  apply IH. set_solver.
Qed.

(** A filename no candidate has opens no stream. *)
Lemma streams_named_absent filename file_objects seen_filenames :
  Forall (fun file_object => output_filename file_object ≠ filename) file_objects →
  streams_named filename (render_loop file_objects seen_filenames) = [].
Proof.
  revert seen_filenames.
  induction file_objects as [|file_object rest IH]; intros seen Hnone; [done|].
  apply Forall_cons in Hnone as [Hhead Hrest].
  cbn [DumpFiles.render_loop]. case_decide; [by apply IH|].
  rewrite streams_named_cons. cbn [fst].
  rewrite decide_False by done. by apply IH.
Qed.

(** The first candidate with a filename not yet seen owns its one stream. *)
Lemma streams_named_first before first after seen_filenames :
  output_filename first ∉ seen_filenames →
  Forall (fun file_object => output_filename file_object ≠ output_filename first)
         before →
  streams_named (output_filename first)
                (render_loop (before ++ first :: after) seen_filenames)
  = [writes (dump_file_object first (output_filename first))].
Proof.
  revert seen_filenames.
  induction before as [|file_object rest IH]; intros seen Hfresh Hbefore.
  - cbn [app DumpFiles.render_loop]. fold (output_filename first).
    rewrite decide_False by done.
    rewrite streams_named_cons. cbn [fst snd]. rewrite decide_True by done.
    rewrite streams_named_seen; [done|].
    apply elem_of_union; left. by apply elem_of_singleton.
  - apply Forall_cons in Hbefore as [Hhead Hrest].
    cbn [app DumpFiles.render_loop]. fold (output_filename file_object).
    case_decide; [by apply IH|].
    rewrite streams_named_cons. cbn [fst].
    rewrite decide_False by done. apply IH; [|done].
    intros [Hsame%elem_of_singleton | ?]%elem_of_union; [by symmetry in Hsame | done].
Qed.

End ReconstructorFacts.

Section RenderFacts.
Import DumpFiles.
Variable kernel_address_space : KernelAddressSpace.
Variable physical_address_space : PhysicalAddressSpace.
Variable out_fd_name : string -> string.
Variable profile : Profile.
Variable tasks : list Task.

Local Abbreviation render :=
  (render kernel_address_space physical_address_space out_fd_name profile tasks).
Local Abbreviation dump :=
  (dump_file_object kernel_address_space physical_address_space out_fd_name
                    (CollectFileObject profile tasks).2).

(** C6, as amended.  Whatever follows it in the order the candidate set is
    gone through, a file object that no earlier one in that order shares its
    output filename with is the only one a stream is opened for under that
    filename: exactly one stream has the name, and its writes are those made
    for that file object alone.  File objects met later under the same name
    open nothing and write nothing.  The order is that of the set, not that
    of discovery. *)
Theorem render_first_seen_wins (before after : list FILE_OBJECT) (first : FILE_OBJECT) :
  Forall (fun file_object => output_filename file_object ≠ output_filename first)
         before →
  streams_named (output_filename first) (render (before ++ first :: after))
  = [writes (dump first (output_filename first))].
Proof.
  intros Hbefore. unfold DumpFiles.render, CollectFileObject. cbn [snd].
  by apply streams_named_first.
Qed.

End RenderFacts.

(** ** The MFT tree builder: extraction *)
Section ExtractFacts.
Import MftDump.

(** A live record whose parent's children are a set, or whose parent has not
    been seen, is recorded by id and added to the parent's set. *)
Lemma extract_mft_entry_registers (self : State) (mft : MFT_ENTRY) :
  magic mft = "FILE" →
  dir_tree self !! filename_mftReference mft ≠ Some EmptyDict →
  ∃ ids,
    (match dir_tree self !! filename_mftReference mft with
     | Some children => children = IdSet ids
     | None => ids = ∅
     end)
    ∧ extract_mft_entry self mft
      = Returned
          {| mfts := <[mft_entry mft := mft]> (mfts self);
             dir_tree := <[filename_mftReference mft :=
                             IdSet ({[mft_entry mft]} ∪ ids)]> (dir_tree self) |}.
Proof.
  intros Hlive Hset. unfold extract_mft_entry.
  rewrite decide_False by (by intros []).
  destruct (dir_tree self !! filename_mftReference mft) as [children|] eqn:Hparent.
  - rewrite decide_False by (intros Hunseen; apply Hunseen, elem_of_dom; eauto).
    rewrite Hparent. destruct children as [|ids]; [done|].
    exists ids. split; [done|]. reflexivity.
  - rewrite decide_True by (by apply not_elem_of_dom).
    rewrite lookup_insert_eq. exists ∅. split; [done|]. cbn.
    by rewrite insert_insert_eq.
Qed.

(** A live record whose parent's children are the seeded [{}] is not
    registered: the call raises. *)
Lemma extract_mft_entry_raises (self : State) (mft : MFT_ENTRY) :
  magic mft = "FILE" →
  dir_tree self !! filename_mftReference mft = Some EmptyDict →
  extract_mft_entry self mft = Raised "AttributeError".
Proof.
  intros Hlive Hdict. unfold extract_mft_entry.
  rewrite decide_False by (by intros []).
  rewrite decide_False by (intros Hunseen; apply Hunseen, elem_of_dom; eauto).
  by rewrite Hdict.
Qed.

(** C1.  The code at the input where the claim fails: a live record whose
    parent id is 2.  [__init__] stores a [{}] under id 2, not a set, so for
    the very first such record [add] raises [AttributeError]; the record is
    not registered as a child of id 2 and the exception leaves
    [extract_mft_entries_from_vacb]. *)
Theorem extract_child_of_root_raises :
  (∀ mft_id name info,
     extract_mft_entry init (mkMftEntry "FILE" mft_id 2 name info)
     = Raised "AttributeError")
  ∧ extract_mft_entries_from_vacb Sample.root_child_block init Sample.mft_vacb
    = Raised "AttributeError".
Proof.
  split; [|by vm_compute].
  intros mft_id name info. by apply extract_mft_entry_raises.
Qed.

End ExtractFacts.

(** ** The MFT tree builder: traversal *)
Section TraversalFacts.
Import MftDump.
Variable self : State.

Lemma rendered_nil seen : rendered self seen [] seen.
Proof.
  unfold rendered. cbn. split_and!; [set_solver | constructor |].
  by intros mft_id ?%elem_of_nil.
Qed.

Lemma rendered_subseteq seen rows seen' :
  rendered self seen rows seen' → seen ⊆ seen'.
Proof. intros (-> & _). set_solver. Qed.

Lemma rendered_app seen rows1 seen1 rows2 seen2 :
  rendered self seen rows1 seen1 →
  rendered self seen1 rows2 seen2 →
  rendered self seen (rows1 ++ rows2) seen2.
Proof.
  intros (-> & Hnodup1 & Hnew1) (-> & Hnodup2 & Hnew2).
  unfold rendered. rewrite fmap_app. split_and!.
  - rewrite list_to_set_app_L. set_solver.
  - apply NoDup_app. split_and!; [done | | done].
    intros mft_id Hin1 Hin2. apply Hnew2 in Hin2 as [Hfresh _].
    apply Hfresh. apply elem_of_union; left. by apply elem_of_list_to_set.
  - intros mft_id [Hin|Hin]%elem_of_app; [by apply Hnew1|].
    apply Hnew2 in Hin as [Hfresh Hdom]. split; [|done].
    intros Hseen. apply Hfresh. by apply elem_of_union; right.
Qed.

Lemma rendered_cons root depth seen rows seen' :
  root ∈ dom (mfts self) → root ∉ seen →
  rendered self ({[root]} ∪ seen) rows seen' →
  rendered self seen (tree_row self root depth :: rows) seen'.
Proof.
  intros Hdom Hfresh (-> & Hnodup & Hnew).
  unfold rendered. cbn [fmap list_fmap MFT tree_row]. split_and!.
  - cbn. set_solver.
  - apply NoDup_cons. split; [|done].
    intros Hin. apply Hnew in Hin as [Hnot _]. apply Hnot.
    apply elem_of_union; left. by apply elem_of_singleton.
  - intros mft_id [->|Hin]%elem_of_cons; [done|].
    apply Hnew in Hin as [Hnot ?]. split; [|done].
    intros Hseen. apply Hnot. by apply elem_of_union; right.
Qed.

(** The loop over the children returns whenever every recursive call made on
    a set that has grown from [seen0] does. *)
Lemma for_children_returns visit seen0 :
  (∀ child seen, seen0 ⊆ seen →
     ∃ rows seen', visit child seen = Some (rows, seen')
                   ∧ rendered self seen rows seen') →
  ∀ children seen, seen0 ⊆ seen →
    ∃ rows seen', for_children visit children seen = Some (rows, seen')
                  ∧ rendered self seen rows seen'.
Proof.
  intros Hvisit. induction children as [|child rest IH]; intros seen Hgrown.
  - exists [], seen. split; [done | apply rendered_nil].
  - cbn [for_children]. case_decide.
    + destruct (Hvisit child seen Hgrown) as (rows1 & seen1 & -> & Hfirst).
      destruct (IH seen1) as (rows2 & seen2 & Hrest & Hsecond).
      { etrans; [exact Hgrown | by eapply rendered_subseteq]. }
      fold (for_children visit) in *. rewrite Hrest.
      exists (rows1 ++ rows2), seen2. split; [done | by eapply rendered_app].
    + by apply IH.
Qed.

(** With more calls allowed than there are ids of [mfts] not yet seen,
    [render_tree] returns. *)
Lemma render_tree_returns fuel root seen depth :
  (size (dom (mfts self) ∖ seen) < fuel)%nat →
  ∃ rows seen', render_tree fuel self root seen depth = Some (rows, seen')
                ∧ rendered self seen rows seen'.
Proof.
  revert root seen depth.
  induction fuel as [|fuel IH]; intros root seen depth Hfuel; [lia|].
  cbn [render_tree]. case_decide as Hguard.
  - exists [], seen. split; [done | apply rendered_nil].
  - assert (root ∈ dom (mfts self) ∧ root ∉ seen) as [Hdom Hfresh].
    { split; [destruct (decide (root ∈ dom (mfts self))) | ]; naive_solver. }
    destruct (for_children_returns
                (fun child seen => render_tree fuel self child seen (S depth))
                ({[root]} ∪ seen)) with
      (children := sorted_children (dir_tree self) root) (seen := {[root]} ∪ seen)
      as (rows & seen' & -> & Hrows); [|done|].
    + intros child seen1 Hgrown. apply IH.
      assert (dom (mfts self) ∖ seen1 ⊂ dom (mfts self) ∖ seen) as Hless.
      { split; [set_solver|]. intros Hsub.
        assert (root ∈ dom (mfts self) ∖ seen1) as Hin by set_solver.
        set_solver. }
      apply subset_size in Hless. lia.
    + exists (tree_row self root depth :: rows), seen'.
      split; [done | by apply rendered_cons].
Qed.

Lemma render_roots_returns fuel roots seen :
  (size (dom (mfts self)) < fuel)%nat →
  ∃ rows seen', render_roots fuel self roots seen = Some (rows, seen')
                ∧ rendered self seen rows seen'.
Proof.
  intros Hfuel. revert seen.
  induction roots as [|mft_id rest IH]; intros seen.
  - exists [], seen. split; [done | apply rendered_nil].
  - cbn [render_roots].
    destruct (render_tree_returns fuel mft_id seen 0%nat)
      as (rows1 & seen1 & -> & Hfirst).
    { assert (size (dom (mfts self) ∖ seen) ≤ size (dom (mfts self)))%nat
        by (apply subseteq_size; set_solver). lia. }
    destruct (IH seen1) as (rows2 & seen2 & -> & Hsecond).
    exists (rows1 ++ rows2), seen2. split; [done | by eapply rendered_app].
Qed.

(** Allowing more calls never changes what a call returns. *)
Lemma for_children_more visit1 visit2 :
  (∀ child seen result, visit1 child seen = Some result →
                        visit2 child seen = Some result) →
  ∀ children seen result,
    for_children visit1 children seen = Some result →
    for_children visit2 children seen = Some result.
Proof.
  intros Hmore. induction children as [|child rest IH]; intros seen result; [done|].
  cbn [for_children]. case_decide; [|by apply IH].
  destruct (visit1 child seen) as [[rows1 seen1]|] eqn:Hfirst; [|done].
  rewrite (Hmore _ _ _ Hfirst).
  fold (for_children visit1) (for_children visit2).
  destruct (for_children visit1 rest seen1) as [[rows2 seen2]|] eqn:Hrest; [|done].
  by rewrite (IH _ _ Hrest).
Qed.

Lemma render_tree_more fuel extra root seen depth result :
  render_tree fuel self root seen depth = Some result →
  render_tree (fuel + extra) self root seen depth = Some result.
Proof.
  revert root seen depth result.
  induction fuel as [|fuel IH]; intros root seen depth result; [done|].
  cbn [render_tree Nat.add]. case_decide; [done|].
  destruct (for_children _ _ _) as [[rows seen']|] eqn:Hchildren; [|done].
  pose proof (for_children_more _
                (fun child seen1 => render_tree (fuel + extra) self child seen1 (S depth))
                (fun child seen1 result1 => IH child seen1 (S depth) result1)
                _ _ _ Hchildren) as Hmore.
  by rewrite Hmore.
Qed.

Lemma render_roots_more fuel extra roots seen result :
  render_roots fuel self roots seen = Some result →
  render_roots (fuel + extra) self roots seen = Some result.
Proof.
  revert seen result. induction roots as [|mft_id rest IH]; intros seen result; [done|].
  cbn [render_roots].
  destruct (render_tree fuel self mft_id seen 0) as [[rows1 seen1]|] eqn:Hfirst; [|done].
  rewrite (render_tree_more _ extra _ _ _ _ Hfirst).
  destruct (render_roots fuel self rest seen1) as [[rows2 seen2]|] eqn:Hrest; [|done].
  by rewrite (IH _ _ Hrest).
Qed.

(** C4.  The traversal over any state and any order of roots returns: with
    [enough_fuel] calls allowed, and with any number more, [render_roots]
    gives the same rows, never running out.  No id is the id of two of those
    rows, whatever the parent references are, cyclic ones included: [seen] is
    handed from root to root and only grows. *)
Theorem render_roots_terminates_once_each (roots : list Z) :
  ∃ rows seen,
    (∀ extra, render_roots (enough_fuel self + extra) self roots ∅
              = Some (rows, seen))
    ∧ NoDup (MFT <$> rows)
    ∧ seen = list_to_set (MFT <$> rows).
Proof.
  destruct (render_roots_returns (enough_fuel self) roots ∅)
    as (rows & seen & Hreturns & Hseen & Hnodup & _).
  { unfold enough_fuel. lia. }
  exists rows, seen. split_and!; [|done|set_solver].
  intros extra. by apply render_roots_more.
Qed.

End TraversalFacts.

Section TraversalFailureFacts.
Import MftDump.
Variable self : State.

(** An id that has no entry, or has been seen, renders nothing and leaves
    [seen] as it was. *)
Lemma render_tree_passes_over fuel root seen depth :
  root ∉ dom (mfts self) ∨ root ∈ seen →
  render_tree (S fuel) self root seen depth = Some ([], seen).
Proof. intros Hguard. cbn [render_tree]. by rewrite decide_True. Qed.

Lemma render_roots_passes_over fuel root rest seen :
  root ∉ dom (mfts self) ∨ root ∈ seen →
  render_roots (S fuel) self (root :: rest) seen
  = render_roots (S fuel) self rest seen.
Proof.
  intros Hguard. cbn [render_roots].
  rewrite render_tree_passes_over by done.
  by destruct (render_roots (S fuel) self rest seen) as [[rows seen']|].
Qed.


End TraversalFailureFacts.

(** ** The theorems at sample snapshots *)
Section Instances.
Import DumpFiles MftDump.

Local Abbreviation kas := Sample.kernel_address_space.
Local Abbreviation pas := Sample.physical_address_space.

(** [dump_subsection_within_declared_sectors] at [Sample.subsection]. *)
Lemma dump_subsection_within_declared_sectors_sample :
  0 ≤ NumberOfFullSectors Sample.subsection
  ∧ total_length (dump_subsection kas pas "DataSectionObject" "f" Sample.subsection)
    ≤ NumberOfFullSectors Sample.subsection * sector_size
  ∧ Forall (fun range => StartingSector Sample.subsection * sector_size
                         ≤ FOffset range.1)
           (dump_subsection kas pas "DataSectionObject" "f" Sample.subsection).
Proof.
  split; [cbn; lia|].
  apply (dump_subsection_within_declared_sectors
           kas pas "DataSectionObject" "f" Sample.subsection).
  cbn; lia.
Defined.

(** [dump_subsection_skips_anomalous_page] at the unmapped middle page of
    [Sample.subsection]. *)
Lemma dump_subsection_skips_anomalous_page_sample :
  dump_pte kas pas "DataSectionObject" "f" Sample.subsection 1 (mkPTE 0x2000) = None
  ∧ dump_subsection kas pas "DataSectionObject" "f" Sample.subsection
    = dump_ptes kas pas "DataSectionObject" "f" Sample.subsection 0 [mkPTE 0x1001]
      ++ dump_ptes kas pas "DataSectionObject" "f" Sample.subsection 2 [mkPTE 0x3001].
Proof.
  apply (dump_subsection_skips_anomalous_page
           kas pas "DataSectionObject" "f" Sample.subsection
           [mkPTE 0x1001] [mkPTE 0x3001] (mkPTE 0x2000)).
  - reflexivity.
  - right; left. eexists. split; reflexivity.
Defined.

(** C10, the claim at a sample.  One subsection of 4 full sectors with a valid
    PTE: the walker renders one range, of 2048 bytes at file offset 0, while
    [4 * sector_size / page_size] is 0 (4 sectors are half a page). *)
Lemma four_sectors_not_quotient_of_ranges :
  rows (_dump_ca kas pas Sample.four_sectors "DataSectionObject" "f")
  = [mkRow "DataSectionObject" 0x1000 0 2048 "f"]
  ∧ length (_dump_ca kas pas Sample.four_sectors "DataSectionObject" "f") = 1%nat
  ∧ 4 * sector_size / page_size = 0
  ∧ 2 * (4 * sector_size) = page_size.
Proof. by vm_compute. Qed.

(** [four_sectors_one_range] at two valid PTEs. *)
Lemma four_sectors_one_range_sample :
  ∃ phys_address,
    resolve_pte kas (mkPTE 0x1001) = Some phys_address
    ∧ _dump_ca kas pas
        (mkControlArea [mkSubsection 0 4 [mkPTE 0x1001; mkPTE 0x2001]])
        "DataSectionObject" "f"
      = [(mkRow "DataSectionObject" phys_address 0 (4 * sector_size) "f",
          mkWrite 0 (read pas phys_address (4 * sector_size)))].
Proof.
  apply (four_sectors_one_range kas pas "DataSectionObject" "f"
           (mkPTE 0x1001) [mkPTE 0x2001]).
  repeat constructor.
  - exists 0x1000. split; [reflexivity | cbn; lia].
  - exists 0x2000. split; [reflexivity | cbn; lia].
Defined.

(** [render_first_seen_wins] at two file objects with one output filename. *)
Lemma render_first_seen_wins_sample :
  output_filename Sample.file_a = output_filename Sample.file_b
  ∧ streams_named (output_filename Sample.file_a)
      (DumpFiles.render kas pas id Sample.profile Sample.tasks [Sample.file_a; Sample.file_b])
    = [writes (dump_file_object kas pas id
                 (CollectFileObject Sample.profile Sample.tasks).2
                 Sample.file_a (output_filename Sample.file_a))].
Proof.
  split; [reflexivity|].
  apply (render_first_seen_wins kas pas id Sample.profile Sample.tasks
           [] [Sample.file_b] Sample.file_a).
  constructor.
Defined.


(** C4 at a cycle: ids 10 and 11 name each other as parent.  Entered at 11,
    the traversal renders 11, then 10 below it, and neither again, not from
    the child set of 10 and not when 10 comes up as a root. *)
Lemma render_cycle_sample :
  fst <$> render_roots (enough_fuel (Sample.extracted Sample.cycle_block))
            (Sample.extracted Sample.cycle_block) [2; 11; 10] ∅
  = Some [mkTreeRow 11 (Some 1) (Some 2) (Some 3) (Some 4) (Some "b") 0;
          mkTreeRow 10 (Some 1) (Some 2) (Some 3) (Some 4) (Some "a") 1].
Proof. by vm_compute. Qed.


End Instances.

(** * Further properties *)

(** ** Output filenames *)
Section FilenameFacts.
Import DumpFiles.

(** The characters of a string. *)
Lemma replace_backslash_length s :
  String.length (replace_backslash s) = String.length s.
Proof. induction s as [|c rest IH]; cbn; [done | by rewrite IH]. Qed.

Lemma replace_backslash_get s n :
  String.get n (replace_backslash s)
  = (fun c => if Ascii.eqb c "\"%char then "_"%char else c) <$> String.get n s.
Proof.
  revert n. induction s as [|c rest IH]; intros n; [done|].
  destruct n as [|n]; cbn; [done | apply IH].
Qed.

(** X1.  The output filename has the length of the name it is made from and
    the same character at every position, except that each backslash has
    become an underscore: no backslash is left, and replacing again changes
    nothing. *)
Theorem replace_backslash_spec (s : string) :
  String.length (replace_backslash s) = String.length s
  ∧ (∀ n, String.get n (replace_backslash s) ≠ Some "\"%char)
  ∧ (∀ n c, String.get n s = Some c → c ≠ "\"%char →
            String.get n (replace_backslash s) = Some c)
  ∧ (∀ n, String.get n s = Some "\"%char →
          String.get n (replace_backslash s) = Some "_"%char)
  ∧ replace_backslash (replace_backslash s) = replace_backslash s.
Proof.
  split_and!.
  - apply replace_backslash_length.
  - intros n. rewrite replace_backslash_get.
    destruct (String.get n s) as [c|]; [|done]. cbn.
    destruct (Ascii.eqb c "\") eqn:Hc; [done|].
    intros [= ->]. by rewrite Ascii.eqb_refl in Hc.
  - intros n c Hget Hc. rewrite replace_backslash_get, Hget. cbn.
    destruct (Ascii.eqb_spec c "\"); [done | done].
  - intros n Hget. by rewrite replace_backslash_get, Hget.
  - induction s as [|c rest IH]; [done|]. cbn. rewrite IH. f_equal.
    destruct (Ascii.eqb_spec c "\"); [done|].
    by destruct (Ascii.eqb_spec c "\").
Qed.

End FilenameFacts.

(** ** CollectFileObject *)
Section CollectFacts.
Import DumpFiles.

Lemma tally_lookup vacbs vacb_by_cache_map shared_cache_map :
  tally vacbs vacb_by_cache_map !! shared_cache_map
  = if decide (shared_cache_map = 0) then vacb_by_cache_map !! shared_cache_map
    else match filter (fun vacb => SharedCacheMap vacb = shared_cache_map) vacbs with
         | [] => vacb_by_cache_map !! shared_cache_map
         | group =>
             Some (default [] (vacb_by_cache_map !! shared_cache_map) ++ group)
         end.
Proof.
  revert vacb_by_cache_map.
  induction vacbs as [|vacb rest IH]; intros m; cbn [tally].
  - by case_decide.
  - rewrite filter_cons.
    destruct (decide (SharedCacheMap vacb ≠ 0)) as [Hkey|Hnull].
    + rewrite IH. case_decide as Hscm; [by rewrite lookup_insert_ne by congruence|].
      destruct (decide (SharedCacheMap vacb = shared_cache_map)) as [->|Hother].
      * rewrite lookup_insert_eq. cbn [default].
        destruct (filter _ rest) as [|v group]; [done|].
        unfold id. by rewrite <- app_assoc.
      * by rewrite lookup_insert_ne by done.
    + rewrite IH. case_decide as Hscm; [done|].
      rewrite decide_False; [done|]. intros Heq. apply Hnull. congruence.
Qed.

(** X2.  The tally built by [CollectFileObject] has no entry for the null
    shared cache map, and under every other key exactly the VACBs enumerated
    with that key, in the order of enumeration; a key no VACB has is
    absent. *)
Theorem CollectFileObject_tally (profile : Profile) (tasks : list Task)
    (shared_cache_map : Z) :
  (CollectFileObject profile tasks).2 !! shared_cache_map
  = if decide (shared_cache_map = 0) then None
    else match filter (fun vacb => SharedCacheMap vacb = shared_cache_map)
                      (Probe.run (EnumerateVacbs.GetVACBs profile)).1 with
         | [] => None
         | group => Some group
         end.
Proof.
  unfold CollectFileObject. cbn [snd]. rewrite tally_lookup, lookup_empty.
  case_decide; [done|]. by destruct (filter _ _).
Qed.

(** X3.  The candidates are the file objects some selected task maps through
    a VAD with a file pointer that is not null, or holds a handle of type
    "File" to; nothing else is a candidate. *)
Theorem CollectFileObject_candidates (profile : Profile) (tasks : list Task)
    (file_object : FILE_OBJECT) :
  file_object ∈ (CollectFileObject profile tasks).1
  ↔ ∃ task, task ∈ tasks
            ∧ (Some file_object ∈ vad_file_pointers task
               ∨ ("File", file_object) ∈ handles task).
Proof.
  unfold CollectFileObject, discovered. cbn [fst].
  rewrite list_elem_of_In, in_flat_map. setoid_rewrite <- list_elem_of_In.
  unfold task_file_objects. setoid_rewrite elem_of_app.
  setoid_rewrite list_elem_of_omap.
  split.
  - intros (task & Htask & [(pointer & Hin & Hsome) | ([type object] & Hin & Hsome)]).
    + exists task. split; [done|]. left. cbn in Hsome. by subst.
    + exists task. split; [done|]. right. cbn in Hsome.
      case_decide; [|done]. injection Hsome as ->. by subst.
  - intros (task & Htask & [Hvad | Hhandle]).
    + exists task. split; [done|]. left. by exists (Some file_object).
    + exists task. split; [done|]. right. exists ("File", file_object).
      split; [done|]. cbn. by rewrite decide_True.
Qed.

End CollectFacts.

(** ** The ranges of the backing-store walker *)
Section RangeFacts.
Import DumpFiles.
Variable kernel_address_space : KernelAddressSpace.
Variable physical_address_space : PhysicalAddressSpace.
Variables type filename : string.

Local Abbreviation dump_pte :=
  (dump_pte kernel_address_space physical_address_space type filename).
Local Abbreviation dump_ptes :=
  (dump_ptes kernel_address_space physical_address_space type filename).
Local Abbreviation dump_subsection :=
  (dump_subsection kernel_address_space physical_address_space type filename).
Local Abbreviation _dump_ca :=
  (fun ca => _dump_ca kernel_address_space physical_address_space ca type filename).

(** Everything about the range of a page that is not passed over. *)
Lemma dump_pte_range subsection i pte range :
  dump_pte subsection i pte = Some range →
  resolve_pte kernel_address_space pte = Some (POffset range.1)
  ∧ POffset range.1 ≤ phys_end physical_address_space
  ∧ FOffset range.1 = (StartingSector subsection + i * 8) * 512
  ∧ Flength range.1 = Z.min 8 (NumberOfFullSectors subsection - i * 8) * 512
  ∧ 0 ≤ NumberOfFullSectors subsection - i * 8
  ∧ row_type range.1 = type ∧ row_filename range.1 = filename
  ∧ range.2 = mkWrite (FOffset range.1)
                      (read physical_address_space (POffset range.1)
                            (Flength range.1)).
Proof.
  unfold DumpFiles.dump_pte.
  change sectors_per_page with 8.
  destruct (resolve_pte _ pte) as [phys_address|]; [|done].
  repeat case_decide; [done..|].
  intros [= <-]. cbn. split_and!; first [done | lia].
Qed.

Lemma elem_of_dump_ptes subsection ptes i range :
  range ∈ dump_ptes subsection i ptes →
  ∃ k pte, ptes !! k = Some pte
           ∧ dump_pte subsection (i + Z.of_nat k) pte = Some range.
Proof.
  revert i. induction ptes as [|pte rest IH]; intros i; cbn [DumpFiles.dump_ptes].
  - by intros ?%elem_of_nil.
  - intros Hin.
    assert (range ∈ dump_ptes subsection (i + 1) rest →
            ∃ k pte', (pte :: rest) !! k = Some pte'
                      ∧ dump_pte subsection (i + Z.of_nat k) pte' = Some range)
      as Htail.
    { intros (k & pte' & Hk & Hrange)%IH. exists (S k), pte'. split; [done|].
      by replace (i + Z.of_nat (S k)) with (i + 1 + Z.of_nat k) by lia. }
    destruct (dump_pte subsection i pte) as [out|] eqn:Hpte; [|by apply Htail].
    apply elem_of_cons in Hin as [->|Hin]; [|by apply Htail].
    exists 0%nat, pte. split; [done|]. by rewrite Z.add_0_r.
Qed.

(** X4.  Every range the walker renders for a control area carries the type
    and filename it was called with, is read from a physical address not
    beyond [end()], has a length that is a whole number of sectors between 0
    and one page, and is written at the file offset its row shows, with the
    bytes read at its physical address. *)
Theorem _dump_ca_ranges (ca : CONTROL_AREA) :
  Forall (fun range =>
            row_type range.1 = type ∧ row_filename range.1 = filename
            ∧ POffset range.1 ≤ phys_end physical_address_space
            ∧ 0 ≤ Flength range.1 ≤ page_size
            ∧ Flength range.1 mod sector_size = 0
            ∧ range.2 = mkWrite (FOffset range.1)
                                (read physical_address_space (POffset range.1)
                                      (Flength range.1)))
         (_dump_ca ca).
Proof.
  apply Forall_forall. intros range.
  unfold DumpFiles._dump_ca. rewrite list_elem_of_In, in_flat_map.
  intros (subsection & _ & Hin%list_elem_of_In).
  apply elem_of_dump_ptes in Hin as (k & pte & _ & Hrange).
  apply dump_pte_range in Hrange
    as (_ & Hend & _ & Hlength & Hleft & Htype & Hname & Hwrite).
  unfold page_size, sector_size. split_and!; try done; try lia.
  rewrite Hlength. apply Z.mod_mul. lia.
Qed.

Lemma dump_ptes_ascending subsection ptes i :
  StronglySorted (fun r1 r2 => FOffset r1.1 + Flength r1.1 ≤ FOffset r2.1)
                 (dump_ptes subsection i ptes)
  ∧ Forall (fun range => (StartingSector subsection + i * 8) * 512
                         ≤ FOffset range.1)
           (dump_ptes subsection i ptes).
Proof.
  revert i. induction ptes as [|pte rest IH]; intros i; cbn [DumpFiles.dump_ptes].
  - split; constructor.
  - destruct (IH (i + 1)) as [Hsorted Hfrom].
    assert (Forall (fun range => (StartingSector subsection + i * 8) * 512
                                 ≤ FOffset range.1)
                   (dump_ptes subsection (i + 1) rest)) as Hfrom'.
    { eapply Forall_impl; [exact Hfrom|]. intros range. cbn. lia. }
    destruct (dump_pte subsection i pte) as [out|] eqn:Hpte; [|done].
    apply dump_pte_range in Hpte as (_ & _ & Hoffset & Hlength & _).
    split.
    + constructor; [done|].
      eapply Forall_impl; [exact Hfrom|]. intros range. cbn. lia.
    + constructor; [lia | done].
Qed.

(** X5.  The ranges rendered for one subsection come in ascending file
    offset and never overlap: each ends at or before the offset at which any
    later one starts.  So no write of a subsection overwrites another of the
    same subsection. *)
Theorem dump_subsection_disjoint (subsection : SUBSECTION) :
  StronglySorted (fun r1 r2 => FOffset r1.1 + Flength r1.1 ≤ FOffset r2.1)
                 (dump_subsection subsection).
Proof. apply dump_ptes_ascending. Qed.

Lemma dump_ptes_resident subsection ptes i :
  Forall (fun pte => ∃ phys_address,
            resolve_pte kernel_address_space pte = Some phys_address
            ∧ phys_address ≤ phys_end physical_address_space) ptes →
  total_length (dump_ptes subsection i ptes)
  = 512 * Z.max 0 (Z.min (NumberOfFullSectors subsection - i * 8)
                         (8 * Z.of_nat (length ptes))).
Proof.
  revert i. induction ptes as [|pte rest IH]; intros i Hvalid.
  - cbn. lia.
  - apply Forall_cons in Hvalid as [(phys_address & Hpte & Hwithin) Hrest].
    cbn [DumpFiles.dump_ptes]. specialize (IH (i + 1) Hrest).
    unfold DumpFiles.dump_pte. rewrite Hpte. change sectors_per_page with 8.
    case_decide as Hclamp.
    + rewrite IH. cbn [length]. lia.
    + rewrite decide_False by lia.
      cbn [total_length foldr fst Flength].
      fold (total_length (dump_ptes subsection (i + 1) rest)).
      rewrite IH. cbn [length]. lia.
Qed.

(** X6.  When every PTE of a subsection resolves to an address within the
    physical address space, the ranges rendered for it add up to all the
    bytes of the declared sectors that its PTE array covers:
    [512 * min(NumberOfFullSectors, 8 * number of PTEs)]. *)
Theorem dump_subsection_resident (subsection : SUBSECTION) :
  0 ≤ NumberOfFullSectors subsection →
  Forall (fun pte => ∃ phys_address,
            resolve_pte kernel_address_space pte = Some phys_address
            ∧ phys_address ≤ phys_end physical_address_space)
         (SubsectionBase subsection) →
  total_length (dump_subsection subsection)
  = sector_size * Z.min (NumberOfFullSectors subsection)
                        (sectors_per_page
                         * Z.of_nat (length (SubsectionBase subsection))).
Proof.
  intros Hdeclared Hvalid. unfold DumpFiles.dump_subsection.
  rewrite dump_ptes_resident by done.
  unfold sector_size. change sectors_per_page with 8. lia.
Qed.

End RangeFacts.

(** ** The fallback decode of a PTE *)
Section FallbackFacts.
Import DumpFiles.

Lemma frame_mask_aligned value :
  Z.land value 0xffffffffff000 mod 0x1000 = 0
  ∧ 0 ≤ Z.land value 0xffffffffff000 < 2 ^ 52.
Proof.
  split.
  - rewrite <- (Z.land_ones _ 12) by lia.
    rewrite <- Z.land_assoc. change (Z.land 0xffffffffff000 (Z.ones 12)) with 0.
    apply Z.land_0_r.
  - replace (Z.land value 0xffffffffff000)
      with (Z.land value 0xffffffffff000 mod 2 ^ 52).
    + apply Z.mod_pos_bound. lia.
    + rewrite <- (Z.land_ones _ 52) by lia.
      rewrite <- Z.land_assoc. reflexivity.
Qed.

(** X7.  On an address space that has no [ResolveProtoPTE], a PTE whose low
    bit is clear resolves to nothing, and a PTE whose low bit is set resolves
    to its value masked with [0xffffffffff000]: an address that is a
    multiple of the page size and below [2 ^ 52]. *)
Theorem resolve_pte_fallback (kernel_address_space : KernelAddressSpace)
    (pte : MMPTE) :
  ResolveProtoPTE kernel_address_space = None →
  resolve_pte kernel_address_space pte
  = (if Z.odd (Long pte) then Some (Z.land (Long pte) 0xffffffffff000) else None)
  ∧ ∀ phys_address,
      resolve_pte kernel_address_space pte = Some phys_address →
      phys_address mod page_size = 0 ∧ 0 ≤ phys_address < 2 ^ 52.
Proof.
  intros Hplain.
  assert (resolve_pte kernel_address_space pte
          = if Z.odd (Long pte) then Some (Z.land (Long pte) 0xffffffffff000)
            else None) as Hresolve.
  { unfold resolve_pte, pte_and. rewrite Hplain.
    change 1 with (Z.ones 1). rewrite Z.land_ones by lia.
    change (2 ^ 1) with 2. rewrite Zmod_odd.
    destruct (Z.odd (Long pte)); by case_decide. }
  split; [done|]. intros phys_address. rewrite Hresolve.
  destruct (Z.odd (Long pte)); [|done]. intros [= <-].
  apply frame_mask_aligned.
Qed.

End FallbackFacts.

(** ** The pages of a VACB *)
Section VacbPageFacts.
Import DumpFiles.
Variable kernel_address_space : KernelAddressSpace.
Variable physical_address_space : PhysicalAddressSpace.

Lemma elem_of_vacb_page_offsets offset :
  offset ∈ vacb_page_offsets ↔ ∃ k, 0 ≤ k < 64 ∧ offset = k * 0x1000.
Proof.
  unfold vacb_page_offsets. rewrite list_elem_of_fmap.
  setoid_rewrite elem_of_seqZ. change (0x40000 / 0x1000) with 64.
  split; intros (k & ? & ?); exists k; split; first [done | lia].
Qed.

Lemma omap_length_le {A B} (f : A → option B) (l : list A) :
  (length (omap f l) ≤ length l)%nat.
Proof.
  induction l as [|x l IH]; [done|]. cbn. destruct (f x); cbn; lia.
Qed.

(** X8.  The rows rendered for one VACB are at most 64, each of type "VACB"
    and one page long, at a file offset that is the VACB's file offset plus
    a whole number of pages below 256 KB, read from the non-null physical
    address that the same page of the VACB's base translates to, and written
    at that file offset. *)
Theorem dump_vacb_pages (filename : string) (vacb : VACB) :
  (length (dump_vacb kernel_address_space physical_address_space filename vacb)
   ≤ 64)%nat
  ∧ Forall (fun range =>
              row_type range.1 = "VACB" ∧ row_filename range.1 = filename
              ∧ Flength range.1 = page_size
              ∧ POffset range.1 ≠ 0
              ∧ (∃ k, 0 ≤ k < 64
                      ∧ FOffset range.1 = FileOffset vacb + k * page_size
                      ∧ vtop kernel_address_space
                             (BaseAddress vacb + k * page_size)
                        = Some (POffset range.1))
              ∧ range.2 = mkWrite (FOffset range.1)
                            (read physical_address_space (POffset range.1)
                                  page_size))
           (dump_vacb kernel_address_space physical_address_space filename vacb).
Proof.
  unfold dump_vacb, page_size. split.
  - etrans; [apply omap_length_le|]. unfold vacb_page_offsets.
    rewrite length_fmap, length_seqZ. done.
  - apply Forall_forall. intros range (offset & Hoffset & Hrange)%list_elem_of_omap.
    apply elem_of_vacb_page_offsets in Hoffset as (k & Hk & ->).
    destruct (vtop _ _) as [phys_address|] eqn:Hvtop; [|done].
    case_decide; [|done]. injection Hrange as <-. cbn.
    split_and!; try done. by exists k.
Qed.

End VacbPageFacts.

(** ** The streams render opens *)
Section StreamFacts.
Import DumpFiles.
Variable kernel_address_space : KernelAddressSpace.
Variable physical_address_space : PhysicalAddressSpace.
Variable out_fd_name : string -> string.

Lemma render_loop_names vacb_by_cache_map file_objects seen_filenames :
  NoDup (fst <$> render_loop kernel_address_space physical_address_space
                   out_fd_name vacb_by_cache_map file_objects seen_filenames)
  ∧ ∀ filename,
      filename ∈ (fst <$> render_loop kernel_address_space physical_address_space
                            out_fd_name vacb_by_cache_map file_objects
                            seen_filenames)
      ↔ (filename ∉ seen_filenames)
        ∧ ∃ file_object, file_object ∈ file_objects
                         ∧ output_filename file_object = filename.
Proof.
  revert seen_filenames.
  induction file_objects as [|file_object rest IH]; intros seen.
  - split; [constructor|]. intros filename. cbn. rewrite elem_of_nil.
    split; [done|]. by intros (_ & ? & ?%elem_of_nil & _).
  - cbn [DumpFiles.render_loop]. fold (output_filename file_object).
    case_decide as Hseen.
    + destruct (IH seen) as [Hnodup Hnames]. split; [done|].
      intros filename. rewrite Hnames. split.
      * intros (Hfresh & fo & Hin & Hname). split; [done|].
        exists fo. split; [by right | done].
      * intros (Hfresh & fo & [->|Hin]%elem_of_cons & Hname);
          [by subst | split; [done | by exists fo]].
    + destruct (IH ({[output_filename file_object]} ∪ seen)) as [Hnodup Hnames].
      cbn [fmap list_fmap fst]. split.
      * apply NoDup_cons. split; [|done].
        intros (Hfresh & _)%Hnames. apply Hfresh.
        apply elem_of_union; left. by apply elem_of_singleton.
      * intros filename. rewrite elem_of_cons, Hnames. split.
        -- intros [-> | (Hfresh & fo & Hin & Hname)].
           ++ split; [done|]. exists file_object. split; [by left | done].
           ++ split.
              ** intros ?. apply Hfresh. by apply elem_of_union; right.
              ** exists fo. split; [by right | done].
        -- intros (Hfresh & fo & [->|Hin]%elem_of_cons & Hname); [by left|].
           destruct (decide (filename = output_filename file_object));
             [by left | right].
           split; [|by exists fo].
           intros [?%elem_of_singleton | ?]%elem_of_union; done.
Qed.

(** X9.  [render] opens a stream under the output filename of every
    candidate file object and under no other name, and opens no filename
    twice. *)
Theorem render_stream_names (profile : Profile) (tasks : list Task)
    (iteration : list FILE_OBJECT) :
  NoDup (fst <$> render kernel_address_space physical_address_space out_fd_name
                        profile tasks iteration)
  ∧ ∀ filename,
      filename ∈ (fst <$> render kernel_address_space physical_address_space
                                 out_fd_name profile tasks iteration)
      ↔ ∃ file_object, file_object ∈ iteration
                       ∧ output_filename file_object = filename.
Proof.
  unfold render, CollectFileObject.
  destruct (render_loop_names
              (tally (Probe.run (EnumerateVacbs.GetVACBs profile)).1 ∅)
              iteration ∅) as [Hnodup Hnames].
  split; [done|]. intros filename. rewrite Hnames.
  split; [by intros [_ ?] | intros ?; split; [apply not_elem_of_empty | done]].
Qed.

End StreamFacts.

(** ** What extraction keeps and when it raises *)
Section RegistryFacts.
Import MftDump Registry.

Lemma registered_init : registered init.
Proof.
  unfold registered, init. cbn. split_and!.
  - apply lookup_singleton_eq.
  - intros parent children Hlookup Hparent.
    by rewrite lookup_singleton_ne in Hlookup.
  - intros mft_id mft Hlookup. by rewrite lookup_empty in Hlookup.
Qed.

#[local] Instance child_of_root_dec mft : Decision (child_of_root mft).
Proof. unfold child_of_root. apply _. Defined.

(** One record: it is a live child of id 2 and the call raises, or it is not
    and the call returns a state that is again [registered]. *)
Lemma extract_mft_entry_cases self mft :
  registered self →
  (child_of_root mft ∧ extract_mft_entry self mft = Raised "AttributeError")
  ∨ (¬ child_of_root mft
     ∧ ∃ self', extract_mft_entry self mft = Returned self' ∧ registered self').
Proof.
  intros (Hroot & Hsets & Hentries).
  destruct (decide (child_of_root mft)) as [[Hlive Hparent]|Hnot].
  { left. split; [done|]. apply extract_mft_entry_raises; [done|].
    by rewrite Hparent. }
  right. split; [done|].
  destruct (decide (magic mft = "FILE")) as [Hlive|Hdead]; cycle 1.
  { exists self. unfold extract_mft_entry. by rewrite decide_True. }
  assert (filename_mftReference mft ≠ 2) as Hparent
    by (intros ?; by apply Hnot).
  destruct (extract_mft_entry_registers self mft Hlive) as (ids & Hids & ->).
  { intros Hdict. destruct (Hsets _ _ Hdict Hparent) as (? & ? & _). done. }
  eexists. split; [done|].
  assert (∀ mft_id, mft_id ∈ ids → mft_id ∈ dom (mfts self)) as Hold.
  { destruct (dir_tree self !! filename_mftReference mft) as [children|] eqn:Hp.
    - destruct (Hsets _ _ Hp Hparent) as (ids' & -> & _ & Hin).
      by injection Hids as <-.
    - subst ids. by intros mft_id ?%not_elem_of_empty. }
  unfold registered. cbn [mfts dir_tree]. split_and!.
  - by rewrite lookup_insert_ne.
  - intros parent children Hlookup Hne.
    destruct (decide (parent = filename_mftReference mft)) as [->|Hother].
    + rewrite lookup_insert_eq in Hlookup. injection Hlookup as <-.
      eexists. split_and!; [done | set_solver |].
      intros mft_id [->%elem_of_singleton | Hin]%elem_of_union;
        rewrite dom_insert; set_solver.
    + rewrite lookup_insert_ne in Hlookup by done.
      destruct (Hsets _ _ Hlookup Hne) as (ids' & -> & Hnonempty & Hin).
      eexists. split_and!; [done..|].
      intros mft_id Hmem. rewrite dom_insert. set_solver.
  - intros mft_id mft' Hlookup.
    destruct (decide (mft_id = mft_entry mft)) as [->|Hother].
    + rewrite lookup_insert_eq in Hlookup. injection Hlookup as <-.
      split_and!; [done..|]. eexists. rewrite lookup_insert_eq.
      split; [done | set_solver].
    + rewrite lookup_insert_ne in Hlookup by done.
      destruct (Hentries _ _ Hlookup) as (Hlive' & Hid & ids' & Hset & Hin).
      split_and!; [done..|].
      destruct (decide (filename_mftReference mft' = filename_mftReference mft))
        as [Hsame|Hdiff].
      * rewrite Hsame in *. rewrite Hset in Hids. injection Hids as <-.
        eexists. rewrite lookup_insert_eq. split; [done | set_solver].
      * exists ids'. by rewrite lookup_insert_ne.
Qed.

Section Decoded.
Variable ntfs_MFT_ENTRY : Z -> MFT_ENTRY.

Lemma extract_at_cases self offsets :
  registered self →
  (Exists (fun offset => child_of_root (ntfs_MFT_ENTRY offset)) offsets
   ∧ extract_at ntfs_MFT_ENTRY self offsets = Raised "AttributeError")
  ∨ (Forall (fun offset => ¬ child_of_root (ntfs_MFT_ENTRY offset)) offsets
     ∧ ∃ self', extract_at ntfs_MFT_ENTRY self offsets = Returned self'
                ∧ registered self').
Proof.
  revert self. induction offsets as [|offset rest IH]; intros self Hself.
  - right. split; [constructor|]. by exists self.
  - cbn [extract_at].
    destruct (extract_mft_entry_cases self (ntfs_MFT_ENTRY offset) Hself)
      as [[Hchild ->] | (Hnot & self1 & -> & Hself1)].
    + left. split; [by left | done].
    + destruct (IH self1 Hself1) as [[Hlater ->] | (Hnone & self2 & -> & Hself2)].
      * left. split; [by right | done].
      * right. split; [by constructor|]. by exists self2.
Qed.

(** The $Mft blocks that hold a live record naming id 2 as parent. *)
Lemma extract_all_cases self vacbs :
  registered self →
  (Exists (fun vacb =>
             FileName vacb = "\$Mft"
             ∧ Exists (fun offset => child_of_root (ntfs_MFT_ENTRY offset))
                      (mft_offsets (BaseAddress vacb))) vacbs
   ∧ extract_all ntfs_MFT_ENTRY self vacbs = Raised "AttributeError")
  ∨ (Forall (fun vacb =>
               FileName vacb = "\$Mft" →
               Forall (fun offset => ¬ child_of_root (ntfs_MFT_ENTRY offset))
                      (mft_offsets (BaseAddress vacb))) vacbs
     ∧ ∃ self', extract_all ntfs_MFT_ENTRY self vacbs = Returned self'
                ∧ registered self').
Proof.
  revert self. induction vacbs as [|vacb rest IH]; intros self Hself.
  - right. split; [constructor|]. by exists self.
  - cbn [extract_all]. case_decide as Hname.
    + unfold extract_mft_entries_from_vacb.
      destruct (extract_at_cases self (mft_offsets (BaseAddress vacb)) Hself)
        as [[Hchild ->] | (Hnot & self1 & -> & Hself1)].
      * left. split; [by left | done].
      * destruct (IH self1 Hself1) as [[Hlater ->] | (Hnone & self2 & -> & Hself2)].
        -- left. split; [by right | done].
        -- right. split; [by constructor|]. by exists self2.
    + destruct (IH self Hself) as [[Hlater ->] | (Hnone & self2 & -> & Hself2)].
      * left. split; [by right | done].
      * right. split; [by constructor|]. by exists self2.
Qed.

(** X10.  Started from the state [__init__] builds, the extraction loop of
    [render] raises exactly when some cache block of [$Mft] holds, at one of
    the 256 record offsets, a live record that names id 2 as its parent; the
    exception is [AttributeError] and no other.  In every other case it
    returns. *)
Theorem extract_all_raises_iff (vacbs : list VACB) :
  (extract_all ntfs_MFT_ENTRY init vacbs = Raised "AttributeError"
   ↔ ∃ vacb offset,
       vacb ∈ vacbs ∧ FileName vacb = "\$Mft"
       ∧ offset ∈ mft_offsets (BaseAddress vacb)
       ∧ child_of_root (ntfs_MFT_ENTRY offset))
  ∧ ((∃ self, extract_all ntfs_MFT_ENTRY init vacbs = Returned self)
     ∨ extract_all ntfs_MFT_ENTRY init vacbs = Raised "AttributeError").
Proof.
  destruct (extract_all_cases init vacbs registered_init)
    as [[Hchild Hraised] | (Hnone & self & Hreturned & _)].
  - split; [|by right]. split; [|done]. intros _.
    apply Exists_exists in Hchild as (vacb & Hin & Hname & Hrecord).
    apply Exists_exists in Hrecord as (offset & Hoffset & Hroot).
    by exists vacb, offset.
  - split; [|left; by exists self]. rewrite Hreturned. split; [done|].
    intros (vacb & offset & Hin & Hname & Hoffset & Hroot).
    rewrite Forall_forall in Hnone. specialize (Hnone vacb Hin Hname).
    rewrite Forall_forall in Hnone. exfalso. by apply (Hnone offset).
Qed.

(** X11.  The state extraction returns is consistent: id 2 still maps to the
    empty dict it was seeded with; every other key of [dir_tree] maps to a
    set that is not empty and holds only ids that have an entry in [mfts];
    and every entry of [mfts] is a live record stored under its own id and
    listed in the child set of its parent. *)
Theorem extract_all_registered (vacbs : list VACB) (self : State) :
  extract_all ntfs_MFT_ENTRY init vacbs = Returned self →
  registered self.
Proof.
  intros Hreturned.
  destruct (extract_all_cases init vacbs registered_init)
    as [[_ Hraised] | (_ & self' & Hreturned' & Hself)].
  - by rewrite Hraised in Hreturned.
  - rewrite Hreturned' in Hreturned. by injection Hreturned as <-.
Qed.

End Decoded.

Lemma elem_of_mft_offsets base offset :
  offset ∈ mft_offsets base ↔ ∃ k, 0 ≤ k < 256 ∧ offset = base + k * 0x400.
Proof.
  unfold mft_offsets. rewrite list_elem_of_fmap.
  setoid_rewrite elem_of_seqZ. change (vacb_size / mft_size) with 256.
  change mft_size with 0x400.
  split; intros (k & ? & ?); exists k; split; first [done | lia].
Qed.

Lemma mft_offsets_apart base :
  StronglySorted (fun o1 o2 => o1 + mft_size ≤ o2) (mft_offsets base).
Proof.
  unfold mft_offsets, seqZ. generalize (Z.to_nat (vacb_size / mft_size)).
  generalize 0%nat. intros from n. revert from.
  induction n as [|n IH]; intros from; [constructor|].
  cbn [seq fmap list_fmap]. constructor; [apply IH|].
  apply Forall_forall. intros o (k & -> & (j & -> & Hj)%list_elem_of_fmap)%list_elem_of_fmap.
  apply elem_of_seq in Hj. unfold mft_size. lia.
Qed.

(** X12.  A cache block is decoded at 256 offsets, [mft_size] apart from its
    base address on, so every record decoded lies wholly inside the
    [vacb_size] bytes of the block and no two records overlap. *)
Theorem mft_offsets_within_block (base : Z) :
  length (mft_offsets base) = 256%nat
  ∧ (∀ offset, offset ∈ mft_offsets base →
               base ≤ offset ∧ offset + mft_size ≤ base + vacb_size)
  ∧ StronglySorted (fun o1 o2 => o1 + mft_size ≤ o2) (mft_offsets base).
Proof.
  split_and!.
  - unfold mft_offsets. by rewrite length_fmap, length_seqZ.
  - intros offset (k & Hk & ->)%elem_of_mft_offsets.
    unfold mft_size, vacb_size. lia.
  - apply mft_offsets_apart.
Qed.

End RegistryFacts.

(** ** The order, depth and reach of the tree traversal *)
Section TreeShapeFacts.
Import MftDump.

Lemma StronglySorted_le_lt (l : list Z) :
  StronglySorted Z.le l → NoDup l → StronglySorted Z.lt l.
Proof.
  induction 1 as [|x l Hsorted IH Hall]; intros Hnodup; [constructor|].
  apply NoDup_cons in Hnodup as [Hfresh Hnodup].
  constructor; [by apply IH|].
  rewrite Forall_forall in Hall |- *. intros y Hy.
  specialize (Hall y Hy). assert (x ≠ y) by (by intros ->). lia.
Qed.

(** X13.  The children visited below an id are the members of its set in
    [dir_tree], each once, in strictly ascending order of id; the seeded
    empty dict of id 2 and an id that is no key have no children. *)
Theorem sorted_children_ascending (dir_tree : gmap Z Children) (root : Z) :
  StronglySorted Z.lt (sorted_children dir_tree root)
  ∧ ∀ child, child ∈ sorted_children dir_tree root
             ↔ ∃ ids, dir_tree !! root = Some (IdSet ids) ∧ child ∈ ids.
Proof.
  unfold sorted_children.
  destruct (dir_tree !! root) as [[|ids]|].
  - split; [constructor|]. intros child. rewrite elem_of_nil.
    split; [done | by intros (? & ? & _)].
  - split.
    + apply StronglySorted_le_lt; [apply StronglySorted_merge_sort; apply _|].
      rewrite merge_sort_Permutation. apply NoDup_elements.
    + intros child. rewrite merge_sort_Permutation, elem_of_elements.
      split; [by exists ids | by intros (? & [= <-] & ?)].
  - split; [constructor|]. intros child. rewrite elem_of_nil.
    split; [done | by intros (? & ? & _)].
Qed.

Variable self : State.

Lemma for_children_depth visit bound :
  (∀ child seen rows seen',
     visit child seen = Some (rows, seen') →
     Forall (fun row => (bound ≤ depth row)%nat) rows) →
  ∀ children seen rows seen',
    for_children visit children seen = Some (rows, seen') →
    Forall (fun row => (bound ≤ depth row)%nat) rows.
Proof.
  intros Hvisit. induction children as [|child rest IH]; intros seen rows seen'.
  - intros [= <- _]. constructor.
  - cbn [for_children]. case_decide; [|apply IH].
    destruct (visit child seen) as [[rows1 seen1]|] eqn:Hfirst; [|done].
    fold (for_children visit).
    destruct (for_children visit rest seen1) as [[rows2 seen2]|] eqn:Hrest; [|done].
    intros [= <- _]. apply Forall_app. split; [by eapply Hvisit | by eapply IH].
Qed.

(** A call renders nothing, or the row of its root at its depth followed by
    rows that are deeper. *)
Lemma render_tree_shape fuel root seen level rows seen' :
  render_tree fuel self root seen level = Some (rows, seen') →
  rows = []
  ∨ ∃ below, rows = tree_row self root level :: below
             ∧ Forall (fun row => (level < depth row)%nat) below.
Proof.
  revert root seen level rows seen'.
  induction fuel as [|fuel IH]; intros root seen level rows seen'; [done|].
  cbn [render_tree]. case_decide; [intros [= <- _]; by left|].
  destruct (for_children _ _ _) as [[below seen1]|] eqn:Hchildren; [|done].
  intros [= <- _]. right. exists below. split; [done|].
  eapply for_children_depth; [|exact Hchildren].
  intros child seen2 rows2 seen2' Hcall. cbn beta in Hcall.
  apply IH in Hcall as [->|(deeper & -> & Hdeeper)]; [constructor|].
  constructor; [cbn; lia|].
  eapply Forall_impl; [exact Hdeeper|]. intros row. cbn. lia.
Qed.

(** X14.  The rows of one call of [render_tree] are in pre-order: either
    none, when the id has no entry or has been seen, or first the row of the
    id itself at the depth the call was given, then only rows at a greater
    depth. *)
Theorem render_tree_preorder (root : Z) (seen : gset Z) (level extra : nat) :
  ∃ rows seen',
    render_tree (enough_fuel self + extra) self root seen level
    = Some (rows, seen')
    ∧ (if decide (root ∉ dom (mfts self) ∨ root ∈ seen)
       then rows = [] ∧ seen' = seen
       else ∃ below, rows = tree_row self root level :: below
                     ∧ Forall (fun row => (level < depth row)%nat) below).
Proof.
  destruct (render_tree_returns self (enough_fuel self + extra) root seen level)
    as (rows & seen' & Hreturns & _).
  { assert (size (dom (mfts self) ∖ seen) ≤ size (dom (mfts self)))%nat
      by (apply subseteq_size; set_solver).
    unfold enough_fuel. lia. }
  exists rows, seen'. split; [done|].
  pose proof (render_tree_shape _ _ _ _ _ _ Hreturns) as Hshape.
  unfold enough_fuel in Hreturns. cbn [Nat.add render_tree] in Hreturns.
  case_decide.
  - by injection Hreturns as <- <-.
  - destruct (for_children _ _ _) as [[below seen1]|]; [|done].
    injection Hreturns as <- <-.
    destruct Hshape as [?|Hshape]; [done | exact Hshape].
Qed.

(** What a call has reached when it hands back [seen'] for [seen]. *)
Lemma for_children_reach visit :
  (∀ child seen rows seen',
     visit child seen = Some (rows, seen') →
     seen ⊆ seen'
     ∧ (child ∈ dom (mfts self) → child ∈ seen')
     ∧ ∀ mft_id, mft_id ∈ seen' → mft_id ∉ seen →
         ∀ child, child ∈ sorted_children (dir_tree self) mft_id →
                  child ∈ dom (mfts self) → child ∈ seen') →
  ∀ children seen rows seen',
    for_children visit children seen = Some (rows, seen') →
    seen ⊆ seen'
    ∧ (∀ child, child ∈ children → child ∈ dom (mfts self) → child ∈ seen')
    ∧ ∀ mft_id, mft_id ∈ seen' → mft_id ∉ seen →
        ∀ child, child ∈ sorted_children (dir_tree self) mft_id →
                 child ∈ dom (mfts self) → child ∈ seen'.
Proof.
  intros Hvisit. induction children as [|child rest IH]; intros seen rows seen'.
  - intros [= _ <-]. split_and!; [done | by intros ? ?%elem_of_nil | done].
  - cbn [for_children]. case_decide as Hfresh.
    + destruct (visit child seen) as [[rows1 seen1]|] eqn:Hfirst; [|done].
      fold (for_children visit).
      destruct (for_children visit rest seen1) as [[rows2 seen2]|] eqn:Hrest;
        [|done].
      intros [= _ <-].
      destruct (Hvisit _ _ _ _ Hfirst) as (Hsub1 & Hchild & Hclosed1).
      destruct (IH _ _ _ Hrest) as (Hsub2 & Hrest_in & Hclosed2).
      split_and!.
      * set_solver.
      * intros c [->|Hin]%elem_of_cons Hdom; [set_solver | by apply Hrest_in].
      * intros mft_id Hin Hnew c Hc Hdom.
        destruct (decide (mft_id ∈ seen1)) as [Hin1|Hnot1].
        -- apply Hsub2. by eapply Hclosed1.
        -- by eapply Hclosed2.
    + intros Hrest. destruct (IH _ _ _ Hrest) as (Hsub & Hrest_in & Hclosed).
      split_and!; [done | | done].
      intros c [Heq|Hin]%elem_of_cons Hdom; [|by apply Hrest_in].
      apply Hsub. by rewrite Heq.
Qed.

Lemma render_tree_reach fuel root seen level rows seen' :
  render_tree fuel self root seen level = Some (rows, seen') →
  seen ⊆ seen'
  ∧ (root ∈ dom (mfts self) → root ∈ seen')
  ∧ ∀ mft_id, mft_id ∈ seen' → mft_id ∉ seen →
      ∀ child, child ∈ sorted_children (dir_tree self) mft_id →
               child ∈ dom (mfts self) → child ∈ seen'.
Proof.
  revert root seen level rows seen'.
  induction fuel as [|fuel IH]; intros root seen level rows seen'; [done|].
  cbn [render_tree]. case_decide as Hguard.
  - intros [= _ <-]. split_and!; [done | | done].
    intros Hdom. destruct Hguard; done.
  - destruct (for_children _ _ _) as [[below seen1]|] eqn:Hchildren; [|done].
    intros [= _ <-].
    apply for_children_reach in Hchildren as (Hsub & Hchildren_in & Hclosed);
      [|intros child seen2 rows2 seen2'; apply IH].
    split_and!; [set_solver | set_solver |].
    intros mft_id Hin Hnew child Hchild Hdom.
    destruct (decide (mft_id = root)) as [->|Hother].
    + by apply Hchildren_in.
    + eapply Hclosed; [done | set_solver | done..].
Qed.

Lemma render_roots_reach fuel roots seen rows seen' :
  render_roots fuel self roots seen = Some (rows, seen') →
  seen ⊆ seen'
  ∧ (∀ root, root ∈ roots → root ∈ dom (mfts self) → root ∈ seen')
  ∧ ∀ mft_id, mft_id ∈ seen' → mft_id ∉ seen →
      ∀ child, child ∈ sorted_children (dir_tree self) mft_id →
               child ∈ dom (mfts self) → child ∈ seen'.
Proof.
  revert seen rows seen'.
  induction roots as [|root rest IH]; intros seen rows seen'.
  - intros [= _ <-]. split_and!; [done | by intros ? ?%elem_of_nil | done].
  - cbn [render_roots].
    destruct (render_tree fuel self root seen 0) as [[rows1 seen1]|] eqn:Hfirst;
      [|done].
    destruct (render_roots fuel self rest seen1) as [[rows2 seen2]|] eqn:Hrest;
      [|done].
    intros [= _ <-].
    apply render_tree_reach in Hfirst as (Hsub1 & Hroot & Hclosed1).
    apply IH in Hrest as (Hsub2 & Hrest_in & Hclosed2).
    split_and!.
    + set_solver.
    + intros r [->|Hin]%elem_of_cons Hdom; [set_solver | by apply Hrest_in].
    + intros mft_id Hin Hnew c Hc Hdom.
      destruct (decide (mft_id ∈ seen1)) as [Hin1|Hnot1].
      * apply Hsub2. by eapply Hclosed1.
      * by eapply Hclosed2.
Qed.

End TreeShapeFacts.

(** ** [MftDump.render] as a whole *)
Section MftRenderFacts.
Import MftDump Registry.
Variable ntfs_MFT_ENTRY : Z -> MFT_ENTRY.

Lemma extract_all_no_mft self vacbs :
  Forall (fun vacb => FileName vacb ≠ "\$Mft") vacbs →
  extract_all ntfs_MFT_ENTRY self vacbs = Returned self.
Proof.
  induction 1 as [|vacb rest Hname Hrest IH]; [done|].
  cbn [extract_all]. by rewrite decide_False.
Qed.

Lemma render_roots_no_entries fuel self roots seen :
  mfts self = ∅ →
  render_roots (S fuel) self roots seen = Some ([], seen).
Proof.
  intros Hempty. induction roots as [|root rest IH]; [done|].
  rewrite render_roots_passes_over; [done|].
  left. rewrite Hempty, dom_empty_L. apply not_elem_of_empty.
Qed.

(** X16.  When no VACB enumerated belongs to [$Mft], [render] does not fail
    and renders no row, whatever keys the traversal starts from. *)
Theorem render_without_mft (profile : Profile) (roots : State → list Z)
    (fuel : nat) :
  Forall (fun vacb => FileName vacb ≠ "\$Mft")
         (Probe.run (EnumerateVacbs.GetVACBs profile)).1 →
  render ntfs_MFT_ENTRY profile roots (S fuel) = Returned (Some []).
Proof.
  intros Hnone. unfold render. rewrite extract_all_no_mft by done.
  by rewrite render_roots_no_entries.
Qed.

End MftRenderFacts.

(** ** The vacbs table *)
Section VacbsTableFacts.
Import Vacbs.
Variable kernel_address_space : KernelAddressSpace.
Variable file_name_with_drive : VACB -> string.

Lemma render_rows_spec vacbs :
  row_vacb <$> render_rows kernel_address_space file_name_with_drive vacbs
  = filter (fun vacb => file_name_with_drive vacb ≠ "") vacbs
  ∧ Forall (fun row =>
              Filename row = file_name_with_drive (row_vacb row)
              ∧ Filename row ≠ ""
              ∧ Base row = BaseAddress (row_vacb row)
              ∧ Offset row = FileOffset (row_vacb row)
              ∧ (Present row = true
                 ↔ ∃ phys_address,
                     vtop kernel_address_space (Base row) = Some phys_address
                     ∧ phys_address ≠ 0))
           (render_rows kernel_address_space file_name_with_drive vacbs).
Proof.
  induction vacbs as [|vacb rest [IHrows IHall]]; [split; [done | constructor]|].
  cbn [render_rows]. rewrite filter_cons. case_decide as Hname.
  - split; [cbn; by rewrite IHrows|].
    constructor; [|done]. cbn. split_and!; [done..|].
    unfold present. destruct (vtop _ _) as [phys_address|].
    + rewrite bool_decide_eq_true. split; [by exists phys_address|].
      by intros (? & [= <-] & ?).
    + split; [done | by intros (? & ? & _)].
  - done.
Qed.

(** X18.  The vacbs table has one row for every VACB enumerated whose file
    has a name, in the order of enumeration, and none for the others.  A row
    shows the base address, the file offset and the file name of its VACB,
    and [Present] is true exactly when the base address translates to a
    physical address that is not null. *)
Theorem render_table (profile : Profile) :
  row_vacb <$> render kernel_address_space file_name_with_drive profile
  = filter (fun vacb => file_name_with_drive vacb ≠ "")
           (Probe.run (EnumerateVacbs.GetVACBs profile)).1
  ∧ Forall (fun row =>
              Filename row = file_name_with_drive (row_vacb row)
              ∧ Filename row ≠ ""
              ∧ Base row = BaseAddress (row_vacb row)
              ∧ Offset row = FileOffset (row_vacb row)
              ∧ (Present row = true
                 ↔ ∃ phys_address,
                     vtop kernel_address_space (Base row) = Some phys_address
                     ∧ phys_address ≠ 0))
           (render kernel_address_space file_name_with_drive profile).
Proof. apply render_rows_spec. Qed.

End VacbsTableFacts.

(** ** The Darwin address resolver *)
Section ResolverFacts.
Import DarwinAddressResolver.
Variable SessionProfile : Type.
Variable session_profile : SessionProfile.

Local Abbreviation KModModule_init := (KModModule_init SessionProfile session_profile).
Local Abbreviation _EnsureInitialized :=
  (_EnsureInitialized SessionProfile session_profile).

Lemma add_modules (self : Resolver SessionProfile) get_module_list :
  foldl (fun self kmod => AddModule SessionProfile self (KModModule_init kmod))
        self get_module_list
  = {| _initialized := _initialized SessionProfile self;
       modules := modules SessionProfile self
                  ++ (KModModule_init <$> get_module_list) |}.
Proof.
  revert self. induction get_module_list as [|kmod rest IH]; intros self.
  - cbn. rewrite app_nil_r. by destruct self.
  - cbn [foldl]. rewrite IH. cbn. by rewrite <- app_assoc.
Qed.

(** X19.  [_EnsureInitialized] leaves an initialized resolver as it is.  To
    one that is not it adds one module for every kernel module listed, in
    the order listed and after the modules it already had, and marks it
    initialized; so a second call adds nothing, whatever is listed then.
    Each module added spans [address] to [address + size] of its kernel
    module and bears its name, and [__init__] assigns it the session's
    profile exactly when that name is "__kernel__". *)
Theorem _EnsureInitialized_once (get_module_list later : list kmod_info)
    (self : Resolver SessionProfile) :
  _initialized SessionProfile (_EnsureInitialized get_module_list self) = true
  ∧ (_initialized SessionProfile self = true →
     _EnsureInitialized get_module_list self = self)
  ∧ (_initialized SessionProfile self = false →
     modules SessionProfile (_EnsureInitialized get_module_list self)
     = modules SessionProfile self ++ (KModModule_init <$> get_module_list))
  ∧ _EnsureInitialized later (_EnsureInitialized get_module_list self)
    = _EnsureInitialized get_module_list self
  ∧ Forall (fun module =>
              name SessionProfile module = kmod_name (kmod SessionProfile module)
              ∧ start SessionProfile module
                = kmod_address (kmod SessionProfile module)
              ∧ module_end SessionProfile module
                = start SessionProfile module
                  + kmod_size (kmod SessionProfile module)
              ∧ (module_profile SessionProfile module ≠ None
                 ↔ name SessionProfile module = "__kernel__"))
           (KModModule_init <$> get_module_list).
Proof.
  unfold DarwinAddressResolver._EnsureInitialized.
  destruct (_initialized SessionProfile self) eqn:Hinit.
  - rewrite Hinit. split_and!; [done | done | done | done |].
    apply Forall_fmap, Forall_true. intros kmod. cbn. split_and!; [done..|].
    by case_decide.
  - rewrite add_modules. cbn. split_and!; [done | done | done | done |].
    apply Forall_fmap, Forall_true. intros kmod. cbn. split_and!; [done..|].
    by case_decide.
Qed.

End ResolverFacts.

(** ** The further theorems at sample snapshots *)
Section FurtherInstances.
Import DumpFiles.

(** [dump_subsection_resident] at twenty sectors under three valid PTEs: all
    twenty sectors are rendered. *)
Lemma dump_subsection_resident_sample :
  total_length (dump_subsection Sample.kernel_address_space
                  Sample.physical_address_space "DataSectionObject" "f"
                  Fixture.resident)
  = sector_size * Z.min (NumberOfFullSectors Fixture.resident)
                        (sectors_per_page
                         * Z.of_nat (length (SubsectionBase Fixture.resident))).
Proof.
  apply (dump_subsection_resident Sample.kernel_address_space
           Sample.physical_address_space "DataSectionObject" "f"
           Fixture.resident).
  - cbn; lia.
  - repeat constructor.
    + exists 0x1000. split; [reflexivity | cbn; lia].
    + exists 0x2000. split; [reflexivity | cbn; lia].
    + exists 0x3000. split; [reflexivity | cbn; lia].
Defined.

(** [resolve_pte_fallback] at a valid PTE with flag bits set. *)
Lemma resolve_pte_fallback_sample :
  resolve_pte Fixture.plain_address_space (mkPTE 0x1235)
  = (if Z.odd (Long (mkPTE 0x1235))
     then Some (Z.land (Long (mkPTE 0x1235)) 0xffffffffff000) else None)
  ∧ ∀ phys_address,
      resolve_pte Fixture.plain_address_space (mkPTE 0x1235) = Some phys_address →
      phys_address mod page_size = 0 ∧ 0 ≤ phys_address < 2 ^ 52.
Proof.
  apply (resolve_pte_fallback Fixture.plain_address_space (mkPTE 0x1235)).
  reflexivity.
Defined.

(** [extract_all_registered] at a block with a file and its directory. *)
Lemma extract_all_registered_sample :
  Registry.registered (Sample.extracted Fixture.directory_block).
Proof.
  apply (extract_all_registered Fixture.directory_block [Sample.mft_vacb]
           (Sample.extracted Fixture.directory_block)).
  by vm_compute.
Defined.

(** [render_without_mft] at a legacy profile whose one VACB belongs to
    another file. *)
Lemma render_without_mft_sample :
  MftDump.render Sample.cycle_block Fixture.legacy_profile (fun _ => [2; 5]) 1
  = Returned (Some []).
Proof.
  apply (render_without_mft Sample.cycle_block Fixture.legacy_profile
           (fun _ => [2; 5]) 0).
  repeat constructor. by vm_compute.
Defined.

End FurtherInstances.

(** ** Which duplicate wins, and when the streams do not depend on it *)
Section DuplicateFacts.
Import DumpFiles.
Variable kernel_address_space : KernelAddressSpace.
Variable physical_address_space : PhysicalAddressSpace.
Variable out_fd_name : string -> string.

Local Abbreviation dump_file_object :=
  (dump_file_object kernel_address_space physical_address_space out_fd_name).

(** The streams under a filename: the one of the first candidate that has
    it, if the filename has not been seen. *)
Lemma streams_named_render_loop vacb_by_cache_map filename file_objects
    seen_filenames :
  streams_named filename
    (render_loop kernel_address_space physical_address_space out_fd_name
                 vacb_by_cache_map file_objects seen_filenames)
  = if decide (filename ∈ seen_filenames) then []
    else match find (fun file_object =>
                       bool_decide (output_filename file_object = filename))
                    file_objects with
         | Some first =>
             [writes (dump_file_object vacb_by_cache_map first filename)]
         | None => []
         end.
Proof.
  revert seen_filenames.
  induction file_objects as [|file_object rest IH]; intros seen.
  - cbn. by case_decide.
  - cbn [DumpFiles.render_loop find]. fold (output_filename file_object).
    destruct (decide (output_filename file_object ∈ seen)) as [Hdup|Hnew].
    + rewrite IH. case_decide as Hseen; [done|].
      rewrite bool_decide_eq_false_2; [done|]. by intros <-.
    + rewrite streams_named_cons, IH. cbn [fst snd].
      destruct (decide (output_filename file_object = filename)) as [<-|Hother].
      * rewrite bool_decide_eq_true_2 by done.
        rewrite decide_True by (apply elem_of_union; left; by apply elem_of_singleton).
        by rewrite decide_False.
      * rewrite bool_decide_eq_false_2 by done. cbn [app].
        destruct (decide (filename ∈ seen)) as [Hseen|Hfresh].
        -- rewrite decide_True; [done|]. by apply elem_of_union; right.
        -- rewrite decide_False; [done|].
           intros [Hsame%elem_of_singleton | ?]%elem_of_union; [|done].
           by symmetry in Hsame.
Qed.

Variable profile : Profile.
Variable tasks : list Task.

Local Abbreviation render :=
  (render kernel_address_space physical_address_space out_fd_name profile tasks).
Local Abbreviation dump :=
  (dump_file_object (CollectFileObject profile tasks).2).

(** X20.  Provided that any two candidate file objects that normalize to
    the same output filename have the same data written for them, two runs
    over the same snapshot produce byte-identical output streams for every
    recovered file, in whatever order each run goes through the unordered
    candidate set. *)
Theorem render_deterministic_up_to_duplicates
    (iteration1 iteration2 : list FILE_OBJECT) :
  set_iteration (discovered tasks) iteration1 →
  set_iteration (discovered tasks) iteration2 →
  (∀ fo1 fo2, fo1 ∈ discovered tasks → fo2 ∈ discovered tasks →
              output_filename fo1 = output_filename fo2 →
              writes (dump fo1 (output_filename fo1))
              = writes (dump fo2 (output_filename fo2))) →
  ∀ filename,
    streams_named filename (render iteration1)
    = streams_named filename (render iteration2)
    ∧ stream_bytes <$> streams_named filename (render iteration1)
      = stream_bytes <$> streams_named filename (render iteration2).
Proof.
  intros [_ Hmem1] [_ Hmem2] Hsame filename.
  assert (streams_named filename (render iteration1)
          = streams_named filename (render iteration2)) as Heq; [|by rewrite Heq].
  unfold DumpFiles.render, CollectFileObject. cbn [snd].
  rewrite !streams_named_render_loop. rewrite !decide_False by apply not_elem_of_empty.
  destruct (find _ iteration1) as [fo1|] eqn:Hfind1;
    destruct (find _ iteration2) as [fo2|] eqn:Hfind2.
  - apply find_some in Hfind1 as [Hin1%list_elem_of_In Hname1%bool_decide_eq_true].
    apply find_some in Hfind2 as [Hin2%list_elem_of_In Hname2%bool_decide_eq_true].
    pose proof (Hsame fo1 fo2) as Hdata.
    rewrite Hname1, Hname2 in Hdata.
    f_equal. apply Hdata; [by apply Hmem1 | by apply Hmem2 | done].
  - apply find_some in Hfind1 as [Hin1%list_elem_of_In Hname1].
    rewrite (find_none _ _ Hfind2 fo1) in Hname1; [done|].
    apply list_elem_of_In, Hmem2. by apply Hmem1.
  - apply find_some in Hfind2 as [Hin2%list_elem_of_In Hname2].
    rewrite (find_none _ _ Hfind1 fo2) in Hname2; [done|].
    apply list_elem_of_In, Hmem1. by apply Hmem2.
  - done.
Qed.

End DuplicateFacts.

(** ** The traversal under the recursion limit *)
Section RecursionFacts.
Import MftDump.
Variable self : State.


Lemma finished_after rows t :
  Recursion.finished (Recursion.after rows t)
  = match Recursion.finished t with
    | Some (rows', seen) => Some (rows ++ rows', seen)
    | None => None
    end.
Proof. by destruct t. Qed.

(** Where the limited traversal finishes it is the traversal with as much
    fuel as there are frames; where it is aborted, that one runs out. *)
Lemma for_children_finished limited visit :
  (∀ child seen, Recursion.finished (limited child seen) = visit child seen) →
  ∀ children seen,
    Recursion.finished (Recursion.for_children limited children seen)
    = for_children visit children seen.
Proof.
  intros Hvisit. induction children as [|child rest IH]; intros seen; [done|].
  cbn [Recursion.for_children for_children]. case_decide; [|apply IH].
  rewrite <- Hvisit. destruct (limited child seen) as [rows1 seen1|]; [|done].
  cbn [Recursion.finished]. rewrite finished_after.
  fold (Recursion.for_children limited) (for_children visit). by rewrite IH.
Qed.

Lemma render_tree_finished frames root seen level :
  Recursion.finished (Recursion.render_tree frames self root seen level)
  = render_tree frames self root seen level.
Proof.
  revert root seen level.
  induction frames as [|frames IH]; intros root seen level; [done|].
  cbn [Recursion.render_tree render_tree]. case_decide; [done|].
  rewrite finished_after.
  rewrite (for_children_finished _
             (fun child seen => render_tree frames self child seen (S level)))
    by (intros; apply IH).
  by destruct (for_children _ _ _) as [[rows seen']|].
Qed.

Lemma render_roots_finished frames roots seen :
  Recursion.finished (Recursion.render_roots frames self roots seen)
  = render_roots frames self roots seen.
Proof.
  revert seen. induction roots as [|root rest IH]; intros seen; [done|].
  cbn [Recursion.render_roots render_roots].
  rewrite <- render_tree_finished.
  destruct (Recursion.render_tree frames self root seen 0) as [rows1 seen1|];
    [|done].
  cbn [Recursion.finished]. by rewrite finished_after, IH.
Qed.

(** However it ends, the traversal has rendered new, distinct ids that have
    an entry; and the only exception is the interpreter's. *)
Lemma sound_after seen rows1 seen1 t :
  rendered self seen rows1 seen1 →
  Recursion.sound self seen1 t →
  Recursion.sound self seen (Recursion.after rows1 t).
Proof.
  intros Hfirst. destruct t as [rows seen'|rows seen' e]; cbn.
  - by apply rendered_app.
  - intros [Hrest ->]. split; [by eapply rendered_app | done].
Qed.

Lemma for_children_sound visit :
  (∀ child seen, Recursion.sound self seen (visit child seen)) →
  ∀ children seen,
    Recursion.sound self seen (Recursion.for_children visit children seen).
Proof.
  intros Hvisit. induction children as [|child rest IH]; intros seen.
  - apply rendered_nil.
  - cbn [Recursion.for_children]. case_decide; [|apply IH].
    pose proof (Hvisit child seen) as Hchild.
    destruct (visit child seen) as [rows1 seen1|rows1 seen1 e]; [|done].
    eapply sound_after; [exact Hchild | apply IH].
Qed.

Lemma render_tree_sound frames root seen level :
  Recursion.sound self seen (Recursion.render_tree frames self root seen level).
Proof.
  revert root seen level.
  induction frames as [|frames IH]; intros root seen level.
  - split; [apply rendered_nil | done].
  - cbn [Recursion.render_tree]. case_decide as Hguard; [apply rendered_nil|].
    assert (root ∈ dom (mfts self) ∧ root ∉ seen) as [Hdom Hfresh].
    { split; [destruct (decide (root ∈ dom (mfts self))) | ]; naive_solver. }
    pose proof (for_children_sound
                  (fun child seen =>
                     Recursion.render_tree frames self child seen (S level))
                  (fun child seen => IH child seen (S level))
                  (sorted_children (dir_tree self) root) ({[root]} ∪ seen))
      as Hchildren.
    destruct (Recursion.for_children _ _ _) as [rows seen'|rows seen' e]; cbn.
    + by apply rendered_cons.
    + destruct Hchildren as [Hrows ->]. split; [by apply rendered_cons | done].
Qed.

Lemma render_roots_sound frames roots seen :
  Recursion.sound self seen (Recursion.render_roots frames self roots seen).
Proof.
  revert seen. induction roots as [|root rest IH]; intros seen.
  - apply rendered_nil.
  - cbn [Recursion.render_roots].
    pose proof (render_tree_sound frames root seen 0) as Hroot.
    destruct (Recursion.render_tree frames self root seen 0)
      as [rows1 seen1|rows1 seen1 e]; [|done].
    eapply sound_after; [exact Hroot | apply IH].
Qed.

(** With more frames than [mfts] has entries the traversal finishes. *)
Lemma render_roots_finishes frames roots :
  (size (dom (mfts self)) < frames)%nat →
  ∃ rows seen, Recursion.render_roots frames self roots ∅ = Recursion.Finished rows seen.
Proof.
  intros Hframes.
  destruct (render_roots_returns self frames roots ∅ Hframes)
    as (rows & seen & Hreturns & _).
  rewrite <- render_roots_finished in Hreturns.
  destruct (Recursion.render_roots frames self roots ∅) as [rows' seen'|];
    [|done].
  by exists rows', seen'.
Qed.

(** Two amounts of fuel that both suffice give the same rows. *)
Lemma render_tree_fuel_irrelevant fuel1 fuel2 root seen level result1 result2 :
  render_tree fuel1 self root seen level = Some result1 →
  render_tree fuel2 self root seen level = Some result2 →
  result1 = result2.
Proof.
  intros H1%(render_tree_more self _ fuel2) H2%(render_tree_more self _ fuel1).
  rewrite Nat.add_comm in H2. congruence.
Qed.

Lemma render_roots_fuel_irrelevant fuel1 fuel2 roots seen result1 result2 :
  render_roots fuel1 self roots seen = Some result1 →
  render_roots fuel2 self roots seen = Some result2 →
  result1 = result2.
Proof.
  intros H1%(render_roots_more self _ fuel2) H2%(render_roots_more self _ fuel1).
  rewrite Nat.add_comm in H2. congruence.
Qed.

(** The rows rendered before the interpreter aborts the traversal are the
    first of the rows the traversal renders when it is not aborted. *)
Lemma for_children_prefix limited visit :
  (∀ child seen rows1 seen1 result,
     limited child seen = Recursion.Finished rows1 seen1 →
     visit child seen = Some result → result = (rows1, seen1)) →
  (∀ child seen rows1 seen1 e full seen',
     limited child seen = Recursion.Aborted rows1 seen1 e →
     visit child seen = Some (full, seen') → rows1 `prefix_of` full) →
  ∀ children seen rows seen1 e full seen',
    Recursion.for_children limited children seen = Recursion.Aborted rows seen1 e →
    for_children visit children seen = Some (full, seen') →
    rows `prefix_of` full.
Proof.
  intros Hfinished Haborted.
  induction children as [|child rest IH]; intros seen rows seen1 e full seen';
    [done|].
  cbn [Recursion.for_children for_children]. case_decide; [|apply IH].
  destruct (visit child seen) as [[full1 seen2]|] eqn:Hvisit; [|done].
  fold (Recursion.for_children limited) (for_children visit).
  destruct (limited child seen) as [rows1 seen3|rows1 seen3 e1] eqn:Hlimited.
  - specialize (Hfinished _ _ _ _ _ Hlimited Hvisit) as [= -> ->].
    destruct (Recursion.for_children limited rest seen3)
      as [|rows2 seen4 e2] eqn:Hrest; [done|].
    destruct (for_children visit rest seen3) as [[full2 seen5]|] eqn:Hfull;
      [|done].
    intros [= <- _ _] [= <- _].
    apply prefix_app. by eapply IH.
  - destruct (for_children visit rest seen2) as [[full2 seen5]|]; [|done].
    intros [= <- _ _] [= <- _].
    apply prefix_app_r. by eapply Haborted.
Qed.

Lemma render_tree_prefix frames fuel root seen level rows seen1 e full seen' :
  Recursion.render_tree frames self root seen level = Recursion.Aborted rows seen1 e →
  render_tree fuel self root seen level = Some (full, seen') →
  rows `prefix_of` full.
Proof.
  revert fuel root seen level rows seen1 e full seen'.
  induction frames as [|frames IH];
    intros fuel root seen level rows seen1 e full seen'.
  - intros [= <- _ _] _. apply prefix_nil.
  - destruct fuel as [|fuel]; [done|].
    cbn [Recursion.render_tree render_tree]. case_decide; [done|].
    destruct (Recursion.for_children _ _ _) as [|rows' seen2 e'] eqn:Hlimited;
      [done|].
    destruct (for_children _ _ _) as [[full' seen3]|] eqn:Hfull; [|done].
    intros [= <- _ _] [= <- _]. apply prefix_cons.
    eapply for_children_prefix; [| |exact Hlimited|exact Hfull].
    + intros child seen4 rows1 seen5 result Hdone Hresult. cbn beta in *.
      eapply render_tree_fuel_irrelevant; [exact Hresult|].
      rewrite <- render_tree_finished. by rewrite Hdone.
    + intros child seen4 rows1 seen5 e1 full1 seen6. apply IH.
Qed.

Lemma render_roots_prefix frames fuel roots seen rows seen1 e full seen' :
  Recursion.render_roots frames self roots seen = Recursion.Aborted rows seen1 e →
  render_roots fuel self roots seen = Some (full, seen') →
  rows `prefix_of` full.
Proof.
  revert seen rows seen1 e full seen'.
  induction roots as [|root rest IH]; intros seen rows seen1 e full seen';
    [done|].
  cbn [Recursion.render_roots render_roots].
  destruct (render_tree fuel self root seen 0) as [[full1 seen2]|] eqn:Hfull;
    [|done].
  destruct (Recursion.render_tree frames self root seen 0)
    as [rows1 seen3|rows1 seen3 e1] eqn:Hlimited.
  - assert ((full1, seen2) = (rows1, seen3)) as [= -> ->].
    { eapply render_tree_fuel_irrelevant; [exact Hfull|].
      rewrite <- render_tree_finished. by rewrite Hlimited. }
    destruct (Recursion.render_roots frames self rest seen3)
      as [|rows2 seen4 e2] eqn:Hrest; [done|].
    destruct (render_roots fuel self rest seen3) as [[full2 seen5]|] eqn:Hfull2;
      [|done].
    intros [= <- _ _] [= <- _]. apply prefix_app. by eapply IH.
  - destruct (render_roots fuel self rest seen2) as [[full2 seen5]|]; [|done].
    intros [= <- _ _] [= <- _]. apply prefix_app_r.
    by eapply render_tree_prefix.
Qed.

End RecursionFacts.

Section RecursionTheorems.
Import MftDump Registry.
Variable self : State.


(** X15.  When the traversal finishes, that is, is not aborted by the
    interpreter's recursion limit, it has rendered only ids that have an
    entry in [mfts], every root that has one, and below every id it rendered
    every child of that id that has an entry. *)
Theorem render_roots_finished_reaches (frames : nat) (roots : list Z)
    (rows : list TreeRow) (seen : gset Z) :
  Recursion.render_roots frames self roots ∅ = Recursion.Finished rows seen →
  (∀ mft_id, mft_id ∈ (MFT <$> rows) → mft_id ∈ dom (mfts self))
  ∧ (∀ root, root ∈ roots → root ∈ dom (mfts self) → root ∈ (MFT <$> rows))
  ∧ (∀ mft_id child,
       mft_id ∈ (MFT <$> rows) →
       child ∈ sorted_children (dir_tree self) mft_id →
       child ∈ dom (mfts self) →
       child ∈ (MFT <$> rows)).
Proof.
  intros Hfinished.
  pose proof (render_roots_sound self frames roots ∅) as Hsound.
  pose proof (render_roots_finished self frames roots ∅) as Hreturns.
  rewrite Hfinished in Hsound, Hreturns. cbn in Hsound, Hreturns.
  destruct Hsound as (Hseen & _ & Hentries).
  symmetry in Hreturns.
  apply render_roots_reach in Hreturns as (_ & Hroots & Hclosed).
  assert (∀ mft_id, mft_id ∈ seen ↔ mft_id ∈ (MFT <$> rows)) as Hids.
  { intros mft_id. rewrite Hseen. set_solver. }
  split_and!.
  - intros mft_id Hin. by apply Hentries.
  - intros root Hin Hdom. apply Hids. by apply Hroots.
  - intros mft_id child Hin Hchild Hdom. apply Hids.
    eapply Hclosed; [by apply Hids | apply not_elem_of_empty | done..].
Qed.

End RecursionTheorems.

Section RenderOutcomeFacts.
Import MftDump Registry.
Variable ntfs_MFT_ENTRY : Z -> MFT_ENTRY.

(** X17.  [render], with [frames] nested calls of [render_tree] allowed by
    the interpreter, ends in one of three ways.  It raises [AttributeError]
    before any row, exactly when a block of [$Mft] holds a live record naming
    id 2 as parent.  Or it returns its rows, which it always does when
    [frames] exceeds the number of entries extraction recorded.  Or the
    traversal is aborted by [RuntimeError] at the recursion limit, after
    rendering the first of the rows it would otherwise have rendered.  In
    the last two cases no id occurs twice among the rows rendered and each
    is the id of an entry. *)
Theorem render_outcomes (profile : Profile) (roots : State → list Z)
    (frames : nat) :
  ((∃ vacb offset,
      vacb ∈ (Probe.run (EnumerateVacbs.GetVACBs profile)).1
      ∧ FileName vacb = "\$Mft"
      ∧ offset ∈ mft_offsets (BaseAddress vacb)
      ∧ child_of_root (ntfs_MFT_ENTRY offset))
   ∧ Recursion.render ntfs_MFT_ENTRY profile roots frames
     = Recursion.Aborted [] ∅ "AttributeError")
  ∨ (∃ self full,
       extract_all ntfs_MFT_ENTRY init
                   (Probe.run (EnumerateVacbs.GetVACBs profile)).1
       = Returned self
       ∧ (∀ extra, render_roots (enough_fuel self + extra) self (roots self) ∅
                   = Some (full, list_to_set (MFT <$> full)))
       ∧ NoDup (MFT <$> full)
       ∧ (∀ mft_id, mft_id ∈ (MFT <$> full) → mft_id ∈ dom (mfts self))
       ∧ ((∃ seen, Recursion.render ntfs_MFT_ENTRY profile roots frames
                   = Recursion.Finished full seen)
          ∨ ((frames ≤ size (dom (mfts self)))%nat
             ∧ ∃ rows seen,
                 Recursion.render ntfs_MFT_ENTRY profile roots frames
                 = Recursion.Aborted rows seen "RuntimeError"
                 ∧ rows `prefix_of` full))).
Proof.
  unfold Recursion.render.
  destruct (extract_all_cases ntfs_MFT_ENTRY init
              (Probe.run (EnumerateVacbs.GetVACBs profile)).1 registered_init)
    as [[Hchild Hraised] | (_ & self & Hreturned & _)].
  - left. rewrite Hraised. split; [|done].
    apply Exists_exists in Hchild as (vacb & Hin & Hname & Hrecord).
    apply Exists_exists in Hrecord as (offset & Hoffset & Hroot).
    by exists vacb, offset.
  - right. rewrite Hreturned.
    destruct (render_roots_returns self (enough_fuel self) (roots self) ∅)
      as (full & seen & Hreturns & Hseen & Hnodup & Hentries);
      [unfold enough_fuel; lia|].
    assert (seen = list_to_set (MFT <$> full)) as -> by set_solver.
    exists self, full. split_and!; [done | | done | |].
    + intros extra. by apply render_roots_more.
    + intros mft_id Hin. by apply Hentries.
    + pose proof (render_roots_finished self frames (roots self) ∅) as Hagree.
      pose proof (render_roots_sound self frames (roots self) ∅) as Hsound.
      destruct (Recursion.render_roots frames self (roots self) ∅)
        as [rows seen|rows seen e] eqn:Hlimited.
      * left. cbn in Hagree. symmetry in Hagree.
        pose proof (render_roots_fuel_irrelevant self _ _ _ _ _ _ Hagree Hreturns)
          as [= -> ->].
        by eexists.
      * right. destruct Hsound as [_ ->]. split.
        -- destruct (decide (frames ≤ size (dom (mfts self)))%nat); [done|].
           destruct (render_roots_finishes self frames (roots self))
             as (? & ? & Hfinishes); [lia|].
           by rewrite Hfinishes in Hlimited.
        -- exists rows, seen. split; [done|].
           by eapply render_roots_prefix.
Qed.

End RenderOutcomeFacts.

(** ** The revised theorems at sample snapshots *)
Section RevisedInstances.
Import DumpFiles.

Local Abbreviation kas := Sample.kernel_address_space.
Local Abbreviation pas := Sample.physical_address_space.

(** C6, the claim at a sample.  [file_a] is discovered before [file_b], and
    both normalize to one output filename.  The set may yield [file_b]
    first; the one stream under that filename then holds what is written for
    [file_b], which starts with a byte of [file_b]'s page, where what is
    written for [file_a] starts with a byte of [file_a]'s. *)
Lemma first_discovered_need_not_win :
  (CollectFileObject Sample.profile Sample.tasks).1
  = [Sample.file_a; Sample.file_b]
  ∧ output_filename Sample.file_a = output_filename Sample.file_b
  ∧ set_iteration (discovered Sample.tasks) [Sample.file_b; Sample.file_a]
  ∧ streams_named (output_filename Sample.file_a)
      (DumpFiles.render kas pas id Sample.profile Sample.tasks
                        [Sample.file_b; Sample.file_a])
    = [writes (dump_file_object kas pas id
                 (CollectFileObject Sample.profile Sample.tasks).2
                 Sample.file_b (output_filename Sample.file_b))]
  ∧ stream_bytes
      (writes (dump_file_object kas pas id
                 (CollectFileObject Sample.profile Sample.tasks).2
                 Sample.file_b (output_filename Sample.file_b))) !! 0
    = Some x02
  ∧ stream_bytes
      (writes (dump_file_object kas pas id
                 (CollectFileObject Sample.profile Sample.tasks).2
                 Sample.file_a (output_filename Sample.file_a))) !! 0
    = Some x01.
Proof.
  assert (Sample.file_b ≠ Sample.file_a) as Hdistinct by discriminate.
  split_and!; [reflexivity | reflexivity | | by vm_compute..].
  split.
  - apply NoDup_cons. split; [|apply NoDup_singleton].
    by intros ?%list_elem_of_singleton.
  - intros file_object. change (discovered Sample.tasks)
      with [Sample.file_a; Sample.file_b].
    rewrite !elem_of_cons, !elem_of_nil. tauto.
Qed.

(** [render_deterministic_up_to_duplicates] at two file objects with one
    output filename and the same backing pages, in the two orders. *)
Lemma render_deterministic_up_to_duplicates_sample :
  output_filename Sample.file_a = output_filename Fixture.file_a_twin
  ∧ streams_named "_Device_f"
      (DumpFiles.render kas pas id Sample.profile Fixture.twin_tasks
                        [Sample.file_a; Fixture.file_a_twin])
    = streams_named "_Device_f"
        (DumpFiles.render kas pas id Sample.profile Fixture.twin_tasks
                          [Fixture.file_a_twin; Sample.file_a])
  ∧ stream_bytes <$> streams_named "_Device_f"
      (DumpFiles.render kas pas id Sample.profile Fixture.twin_tasks
                        [Sample.file_a; Fixture.file_a_twin])
    = stream_bytes <$> streams_named "_Device_f"
        (DumpFiles.render kas pas id Sample.profile Fixture.twin_tasks
                          [Fixture.file_a_twin; Sample.file_a]).
Proof.
  assert (Sample.file_a ≠ Fixture.file_a_twin) as Hdistinct by discriminate.
  split; [reflexivity|].
  apply (render_deterministic_up_to_duplicates kas pas id Sample.profile
           Fixture.twin_tasks
           [Sample.file_a; Fixture.file_a_twin]
           [Fixture.file_a_twin; Sample.file_a]).
  - split.
    + apply NoDup_cons. split; [|apply NoDup_singleton].
      by intros ?%list_elem_of_singleton.
    + intros file_object. reflexivity.
  - split.
    + apply NoDup_cons. split; [|apply NoDup_singleton].
      by intros ?%list_elem_of_singleton.
    + intros file_object. change (discovered Fixture.twin_tasks)
        with [Sample.file_a; Fixture.file_a_twin].
      rewrite !elem_of_cons, !elem_of_nil. tauto.
  - intros fo1 fo2. change (discovered Fixture.twin_tasks)
      with [Sample.file_a; Fixture.file_a_twin].
    rewrite !elem_of_cons, !elem_of_nil.
    intros [->|[->|[]]] [->|[->|[]]] _; reflexivity.
Defined.


(** [render_roots_finished_reaches] at the cycle of ids 10 and 11, with
    frames enough. *)
Lemma render_roots_finished_reaches_sample :
  (∀ root, root ∈ [2; 11; 10] →
           root ∈ dom (MftDump.mfts (Sample.extracted Sample.cycle_block)) →
           root ∈ [11; 10])
  ∧ Recursion.rendered_rows
      (Recursion.render_roots 3 (Sample.extracted Sample.cycle_block)
                              [2; 11; 10] ∅)
    = [mkTreeRow 11 (Some 1) (Some 2) (Some 3) (Some 4) (Some "b") 0;
       mkTreeRow 10 (Some 1) (Some 2) (Some 3) (Some 4) (Some "a") 1].
Proof.
  split; [|by vm_compute].
  destruct (Recursion.render_roots 3 (Sample.extracted Sample.cycle_block)
                                   [2; 11; 10] ∅)
    as [rows seen|] eqn:Hfinished; [|by vm_compute in Hfinished].
  assert (MFT <$> rows = [11; 10]) as Hids.
  { vm_compute in Hfinished. by injection Hfinished as <- _. }
  intros root Hroot Hentry. rewrite <- Hids. revert root Hroot Hentry.
  apply (proj1 (proj2 (render_roots_finished_reaches
                         (Sample.extracted Sample.cycle_block) 3 [2; 11; 10]
                         rows seen Hfinished))).
Defined.

(** The same cycle with one frame: the row of id 11 is rendered, and the call
    for its child raises. *)
Lemma render_roots_aborted_sample :
  Recursion.rendered_rows
    (Recursion.render_roots 1 (Sample.extracted Sample.cycle_block) [2; 11; 10] ∅)
  = [mkTreeRow 11 (Some 1) (Some 2) (Some 3) (Some 4) (Some "b") 0]
  ∧ Recursion.finished
      (Recursion.render_roots 1 (Sample.extracted Sample.cycle_block)
                              [2; 11; 10] ∅)
    = None
  ∧ Recursion.rendered_rows
      (Recursion.render Sample.cycle_block Fixture.mft_profile
                        (fun _ => [2; 11; 10]) 1)
    = [mkTreeRow 11 (Some 1) (Some 2) (Some 3) (Some 4) (Some "b") 0].
Proof. by vm_compute. Qed.

End RevisedInstances.
